(** * XiPrtScr: the controller-input core and the pin-aware history

    A shallow embedding of [main.pyw]: the [XInput] class (state snapshots,
    wildcard events, edge detection, the event queue and its dispatch), the
    bounded deque that holds the screenshots together with the two
    predicate-guarded helpers [deque_append_with_predicate] and
    [deque_extend_with_predicate], and the [App] methods that drive them
    (take, rotate, remove all, collect limit, the polling tick).

    Python objects that are shared and mutated ([ImageComposite] with its
    [pinnation] variable) live in a heap addressed by references; the deque
    holds references, as the program does.  Calls that leave the program
    (the clock, the screen grabber, the clipboard) read an oracle carried by
    the state, and an exception is an outcome next to the state it leaves
    behind. *)

From Stdlib Require Import ZArith Lia.
From stdpp Require Import base tactics option list strings.

Local Open Scope Z_scope.

(** ** Outcomes of a call: it returns, or an exception leaves it *)

Inductive outcome := Returned | Raised.

#[global] Instance outcome_eq_dec : EqDecision outcome.
Proof. solve_decision. Defined.

(** * XInput *)

Module XInput.

(** [XINPUT_STATE] with its nested [XINPUT_GAMEPAD], as the ctypes
    structures declare them. *)
Record XINPUT_GAMEPAD := {
  wButtons : Z;
  bLeftTrigger : Z;
  bRightTrigger : Z;
  sThumbLX : Z;
  sThumbLY : Z;
  sThumbRX : Z;
  sThumbRY : Z
}.

Record XINPUT_STATE := {
  dwPacketNumber : Z;
  Gamepad : XINPUT_GAMEPAD
}.

(** The [MappedStates] dataclass; its defaults are [MappedStates_default]. *)
Record MappedStates := {
  PacketNumber : Z;
  LeftTrigger : Z;
  RightTrigger : Z;
  ThumbLX : Z;
  ThumbLY : Z;
  ThumbRX : Z;
  ThumbRY : Z;
  DpadUp : bool;
  DpadDown : bool;
  DpadLeft : bool;
  DpadRight : bool;
  Start : bool;
  Back : bool;
  LeftThumb : bool;
  RightThumb : bool;
  LeftShoulder : bool;
  RightShoulder : bool;
  A : bool;
  B : bool;
  X : bool;
  Y : bool
}.

Definition MappedStates_default : MappedStates :=
  {| PacketNumber := 0; LeftTrigger := 0; RightTrigger := 0;
     ThumbLX := 0; ThumbLY := 0; ThumbRX := 0; ThumbRY := 0;
     DpadUp := false; DpadDown := false; DpadLeft := false;
     DpadRight := false; Start := false; Back := false;
     LeftThumb := false; RightThumb := false; LeftShoulder := false;
     RightShoulder := false; A := false; B := false; X := false;
     Y := false |}.

(** The button masks of [Constants]. *)
Definition XINPUT_GAMEPAD_DPAD_UP : Z := 0x0001.
Definition XINPUT_GAMEPAD_DPAD_DOWN : Z := 0x0002.
Definition XINPUT_GAMEPAD_DPAD_LEFT : Z := 0x0004.
Definition XINPUT_GAMEPAD_DPAD_RIGHT : Z := 0x0008.
Definition XINPUT_GAMEPAD_START : Z := 0x0010.
Definition XINPUT_GAMEPAD_BACK : Z := 0x0020.
Definition XINPUT_GAMEPAD_LEFT_THUMB : Z := 0x0040.
Definition XINPUT_GAMEPAD_RIGHT_THUMB : Z := 0x0080.
Definition XINPUT_GAMEPAD_LEFT_SHOULDER : Z := 0x0100.
Definition XINPUT_GAMEPAD_RIGHT_SHOULDER : Z := 0x0200.
Definition XINPUT_GAMEPAD_A : Z := 0x1000.
Definition XINPUT_GAMEPAD_B : Z := 0x2000.
Definition XINPUT_GAMEPAD_X : Z := 0x4000.
Definition XINPUT_GAMEPAD_Y : Z := 0x8000.

(** [bool(buttons & mask)] *)
Definition button (buttons mask : Z) : bool :=
  negb (Z.land buttons mask =? 0).

Definition read_raw_states (raw_states : XINPUT_STATE) : MappedStates :=
  let pad := Gamepad raw_states in
  {| PacketNumber := dwPacketNumber raw_states;
     LeftTrigger := bLeftTrigger pad;
     RightTrigger := bRightTrigger pad;
     ThumbLX := sThumbLX pad;
     ThumbLY := sThumbLY pad;
     ThumbRX := sThumbRX pad;
     ThumbRY := sThumbRY pad;
     DpadUp := button (wButtons pad) XINPUT_GAMEPAD_DPAD_UP;
     DpadDown := button (wButtons pad) XINPUT_GAMEPAD_DPAD_DOWN;
     DpadLeft := button (wButtons pad) XINPUT_GAMEPAD_DPAD_LEFT;
     DpadRight := button (wButtons pad) XINPUT_GAMEPAD_DPAD_RIGHT;
     Start := button (wButtons pad) XINPUT_GAMEPAD_START;
     Back := button (wButtons pad) XINPUT_GAMEPAD_BACK;
     LeftThumb := button (wButtons pad) XINPUT_GAMEPAD_LEFT_THUMB;
     RightThumb := button (wButtons pad) XINPUT_GAMEPAD_RIGHT_THUMB;
     LeftShoulder := button (wButtons pad) XINPUT_GAMEPAD_LEFT_SHOULDER;
     RightShoulder := button (wButtons pad) XINPUT_GAMEPAD_RIGHT_SHOULDER;
     A := button (wButtons pad) XINPUT_GAMEPAD_A;
     B := button (wButtons pad) XINPUT_GAMEPAD_B;
     X := button (wButtons pad) XINPUT_GAMEPAD_X;
     Y := button (wButtons pad) XINPUT_GAMEPAD_Y |}.

(** [poll]: [XInputGetState(0, ...)] answers with an error code and the
    structure it filled; code 0 is success, anything else gives [None]. *)
Definition poll (answer : Z * XINPUT_STATE) : option MappedStates :=
  if fst answer =? 0 then Some (read_raw_states (snd answer)) else None.

(** The [Event] dataclass: [type] and [key] range over three literals
    each. *)
Inductive EventType := press | release | any.
Inductive EventKey := KeyLeftTrigger | KeyRightTrigger | KeyAny.

#[global] Instance EventType_eq_dec : EqDecision EventType.
Proof. solve_decision. Defined.
#[global] Instance EventKey_eq_dec : EqDecision EventKey.
Proof. solve_decision. Defined.

Record Event := { type : EventType; key : EventKey }.

#[global] Instance Event_eq_dec : EqDecision Event.
Proof. solve_decision. Defined.

(** [Event.__eq__] *)
Definition Event_eq (self other : Event) : bool :=
  (bool_decide (type self = type other)
   || bool_decide (type self = any)
   || bool_decide (type other = any))
  &&
  (bool_decide (key self = key other)
   || bool_decide (key self = KeyAny)
   || bool_decide (key other = KeyAny)).

Section Controller.

(** The callbacks are bound methods of the application: they read the
    state handed to them and change the application [W], or raise. *)
Context {W : Type}.

Definition handler : Type := MappedStates → W → outcome * W.
Definition callback : Type := (Event * handler)%type.

Record XInput := {
  __prev_states : MappedStates;
  __event_queue : list Event;
  __registered_callbacks : list callback
}.

Definition register_callback (self : XInput) (cb : callback) : XInput :=
  {| __prev_states := __prev_states self;
     __event_queue := __event_queue self;
     __registered_callbacks := __registered_callbacks self ++ [cb] |}.

(** [XInput.__init__] *)
Definition init (registering_callbacks : list callback) : XInput :=
  foldl register_callback
    {| __prev_states := MappedStates_default;
       __event_queue := [];
       __registered_callbacks := [] |}
    registering_callbacks.

(** [Queue.put] *)
Definition put (self : XInput) (e : Event) : XInput :=
  {| __prev_states := __prev_states self;
     __event_queue := __event_queue self ++ [e];
     __registered_callbacks := __registered_callbacks self |}.

Definition set_prev_states (self : XInput) (s : MappedStates) : XInput :=
  {| __prev_states := s;
     __event_queue := __event_queue self;
     __registered_callbacks := __registered_callbacks self |}.

(** [XInput.__update_states] *)
Definition __update_states (self : XInput) (new_states : MappedStates)
  : XInput :=
  if PacketNumber (__prev_states self) =? PacketNumber new_states then
    self
  else
    let self1 :=
      if negb (LeftTrigger (__prev_states self) =? LeftTrigger new_states)
      then
        if LeftTrigger new_states =? 255 then
          put self {| type := press; key := KeyLeftTrigger |}
        else if LeftTrigger new_states =? 0 then
          put self {| type := release; key := KeyLeftTrigger |}
        else self
      else self in
    let self2 :=
      if negb (RightTrigger (__prev_states self1)
               =? RightTrigger new_states)
      then
        if RightTrigger new_states =? 255 then
          put self1 {| type := press; key := KeyRightTrigger |}
        else if RightTrigger new_states =? 0 then
          put self1 {| type := release; key := KeyRightTrigger |}
        else self1
      else self1 in
    set_prev_states self2 new_states.

(** The inner [for callback in self.__registered_callbacks] loop of
    [__handle_events].  Besides the application it returns, in order,
    the events it handed to a handler (one entry per invocation). *)
Fixpoint run_callbacks (cbs : list callback) (event : Event)
    (states : MappedStates) (w : W) : outcome * W * list Event :=
  match cbs with
  | [] => (Returned, w, [])
  | cb :: rest =>
      if Event_eq (fst cb) event then
        match snd cb states w with
        | (Returned, w') =>
            let '(o, w'', calls) := run_callbacks rest event states w' in
            (o, w'', event :: calls)
        | (Raised, w') => (Raised, w', [event])
        end
      else run_callbacks rest event states w
  end.

(** The [while event := self.__event_queue.get_nowait()] loop: an
    [Event] instance is always truthy, so the loop ends only with
    [Empty] (caught) or with an exception of a handler (not caught),
    which leaves the rest of the queue in place. *)
Fixpoint drain (cbs : list callback) (states : MappedStates)
    (queue : list Event) (w : W)
  : outcome * list Event * W * list Event :=
  match queue with
  | [] => (Returned, [], w, [])
  | event :: rest =>
      match run_callbacks cbs event states w with
      | (Returned, w', calls) =>
          let '(o, q, w'', calls') := drain cbs states rest w' in
          (o, q, w'', calls ++ calls')
      | (Raised, w', calls) => (Raised, rest, w', calls)
      end
  end.

(** [XInput.__handle_events] *)
Definition __handle_events (self : XInput) (w : W)
  : outcome * XInput * W * list Event :=
  let '(o, q, w', calls) :=
    drain (__registered_callbacks self) (__prev_states self)
          (__event_queue self) w in
  (o,
   {| __prev_states := __prev_states self;
      __event_queue := q;
      __registered_callbacks := __registered_callbacks self |},
   w', calls).

(** [XInput.update]; [answer] is what the driver answers to [poll]. *)
Definition update (self : XInput) (answer : Z * XINPUT_STATE) (w : W)
  : outcome * XInput * W * list Event :=
  let self1 :=
    match poll answer with
    | Some new_states => __update_states self new_states
    | None => self
    end in
  __handle_events self1 w.

End Controller.

Arguments XInput : clear implicits.
Arguments handler : clear implicits.
Arguments callback : clear implicits.

End XInput.

(** * The bounded deque of [collections] and the two guarded helpers *)

Module Deque.

Section Deque.

Context {T : Type} `{EqDecision T}.

(** A [deque] built with [maxlen=n]: the items from left to right and
    the bound.  The program never builds an unbounded one. *)
Record deque := { items : list T; maxlen : nat }.

Definition len (dq : deque) : nat := length (items dq).

(** [deque.append]: add on the right, then drop from the left when the
    bound is exceeded. *)
Definition append (dq : deque) (x : T) : deque :=
  let l := items dq ++ [x] in
  {| items := if (maxlen dq <? length l)%nat then drop 1 l else l;
     maxlen := maxlen dq |}.

(** [deque(iterable, maxlen=n)]: the items are appended one by one. *)
Definition new (iterable : list T) (n : nat) : deque :=
  foldl append {| items := []; maxlen := n |} iterable.

(** [deque.remove(value)]: the first item equal to [value] goes;
    [None] stands for the [ValueError] raised when there is none. *)
Fixpoint remove_first (value : T) (l : list T) : option (list T) :=
  match l with
  | [] => None
  | y :: l' =>
      if decide (y = value) then Some l'
      else cons y <$> remove_first value l'
  end.

Definition remove (dq : deque) (value : T) : option deque :=
  (λ l, {| items := l; maxlen := maxlen dq |})
    <$> remove_first value (items dq).

(** One step of [deque.rotate]: to the right it is
    [d.appendleft(d.pop())], to the left [d.append(d.popleft())]; an
    empty deque stays as it is.  The item taken out makes room for the
    one put back, so the bound never trims. *)
Definition rotate_right1 (l : list T) : list T :=
  match reverse l with
  | [] => []
  | x :: r => x :: reverse r
  end.

Definition rotate_left1 (l : list T) : list T :=
  match l with
  | [] => []
  | x :: r => r ++ [x]
  end.

(** [deque.rotate(n)] as the library documents it: [n] steps to the
    right, to the left when [n] is negative. *)
Definition rotate (dq : deque) (n : Z) : deque :=
  {| items :=
       if 0 <=? n then Nat.iter (Z.to_nat n) rotate_right1 (items dq)
       else Nat.iter (Z.to_nat (- n)) rotate_left1 (items dq);
     maxlen := maxlen dq |}.

(** The [for object in dq: if not predicate(object): ... break] scan:
    the first object the predicate rejects, if any. *)
Fixpoint first_rejected (predicate : T → bool) (l : list T) : option T :=
  match l with
  | [] => None
  | object :: l' =>
      if negb (predicate object) then Some object
      else first_rejected predicate l'
  end.

(** [App.deque_append_with_predicate]; [None] is an exception (the only
    candidate is the [ValueError] of [dq.remove]). *)
Definition deque_append_with_predicate (dq : deque) (__object : T)
    (predicate : T → bool) : option deque :=
  if (len dq =? maxlen dq)%nat then
    match first_rejected predicate (items dq) with
    | Some object =>
        match remove dq object with
        | Some dq' => Some (append dq' __object)
        | None => None
        end
    | None => Some dq
    end
  else Some (append dq __object).

(** [App.deque_extend_with_predicate] over an iterable already
    evaluated. *)
Fixpoint deque_extend_with_predicate (dq : deque) (__iter : list T)
    (predicate : T → bool) : option deque :=
  match __iter with
  | [] => Some dq
  | __object :: rest =>
      match deque_append_with_predicate dq __object predicate with
      | Some dq' => deque_extend_with_predicate dq' rest predicate
      | None => None
      end
  end.

End Deque.

Arguments deque : clear implicits.

End Deque.

(** * App *)

Section Application.

(** [time()] returns a float; the program only subtracts two readings and
    compares the difference with the cooldown.  Readings, subtraction and
    comparison stay abstract. *)
Context {time : Type}.
Variable time_sub : time → time → time.
Variable time_lt : time → time → bool.

(** [Constants.DELAY] and [Constants.LIMIT] *)
Variable DELAY : time.
Definition LIMIT : nat := 256.

(** An [ImageComposite]: the display name and the [pinnation] variable (the
    two images it carries are opaque here).  Instances are compared by
    identity, so the deque holds references into [heap]. *)
Record ImageComposite := { filename : string; pinnation : bool }.

Definition ref : Type := nat.

(** What the program does to the outside, in order. *)
Inductive Effect := MessageBeep | ImageGrab_grab | copy_image.

(** One answer of the outside world to one call that leaves the program:
    the clock reading if the call is [time()], whether the call raises if it
    is one of [Effect], the time stamp if it is [datetimenow()]. *)
Record Answer := { now : time; raises : bool; stamp : string }.

(** The fields of [App] the core reads and writes, the heap of image
    composites, the answers still to come and the effects so far.  The
    [XInput] instance is kept next to it, in [Program], since its callbacks
    are methods of this object. *)
Record App := {
  _images : Deque.deque ref;
  _deque_collect_limit : nat;
  _xinput_take_cooldown : time;
  _xinput_last_time : time;
  _copy_upon_take : bool;
  _xinput_poll : bool;
  heap : list ImageComposite;
  oracle : nat → Answer;
  asked : nat;
  effects : list Effect
}.

Definition set_images (self : App) (dq : Deque.deque ref) : App :=
  {| _images := dq;
     _deque_collect_limit := _deque_collect_limit self;
     _xinput_take_cooldown := _xinput_take_cooldown self;
     _xinput_last_time := _xinput_last_time self;
     _copy_upon_take := _copy_upon_take self;
     _xinput_poll := _xinput_poll self;
     heap := heap self; oracle := oracle self; asked := asked self;
     effects := effects self |}.

Definition set_deque_collect_limit (self : App) (n : nat) : App :=
  {| _images := _images self;
     _deque_collect_limit := n;
     _xinput_take_cooldown := _xinput_take_cooldown self;
     _xinput_last_time := _xinput_last_time self;
     _copy_upon_take := _copy_upon_take self;
     _xinput_poll := _xinput_poll self;
     heap := heap self; oracle := oracle self; asked := asked self;
     effects := effects self |}.

Definition set_xinput_last_time (self : App) (t : time) : App :=
  {| _images := _images self;
     _deque_collect_limit := _deque_collect_limit self;
     _xinput_take_cooldown := _xinput_take_cooldown self;
     _xinput_last_time := t;
     _copy_upon_take := _copy_upon_take self;
     _xinput_poll := _xinput_poll self;
     heap := heap self; oracle := oracle self; asked := asked self;
     effects := effects self |}.

Definition set_xinput_poll (self : App) (b : bool) : App :=
  {| _images := _images self;
     _deque_collect_limit := _deque_collect_limit self;
     _xinput_take_cooldown := _xinput_take_cooldown self;
     _xinput_last_time := _xinput_last_time self;
     _copy_upon_take := _copy_upon_take self;
     _xinput_poll := b;
     heap := heap self; oracle := oracle self; asked := asked self;
     effects := effects self |}.

Definition set_heap (self : App) (h : list ImageComposite) : App :=
  {| _images := _images self;
     _deque_collect_limit := _deque_collect_limit self;
     _xinput_take_cooldown := _xinput_take_cooldown self;
     _xinput_last_time := _xinput_last_time self;
     _copy_upon_take := _copy_upon_take self;
     _xinput_poll := _xinput_poll self;
     heap := h; oracle := oracle self; asked := asked self;
     effects := effects self |}.

(** The world has answered one more call, and, for a call in [Effect],
    the call is on record. *)
Definition answered (self : App) (done : list Effect) : App :=
  {| _images := _images self;
     _deque_collect_limit := _deque_collect_limit self;
     _xinput_take_cooldown := _xinput_take_cooldown self;
     _xinput_last_time := _xinput_last_time self;
     _copy_upon_take := _copy_upon_take self;
     _xinput_poll := _xinput_poll self;
     heap := heap self; oracle := oracle self; asked := S (asked self);
     effects := effects self ++ done |}.

(** ** Methods that may raise: a state and exception monad over [App] *)

Definition M (R : Type) : Type := App → option R * App.

#[local] Instance M_ret : MRet M := λ R (r : R) self, (Some r, self).

#[local] Instance M_bind : MBind M := λ R1 R2 (f : R1 → M R2) (m : M R1) self,
  match m self with
  | (Some r, self') => f r self'
  | (None, self') => (None, self')
  end.

Definition get : M App := λ self, (Some self, self).
Definition modify (f : App → App) : M unit := λ self, (Some (), f self).
Definition raise {R} : M R := λ self, (None, self).

(** [time()] *)
Definition time_ : M time :=
  λ self, (Some (now (oracle self (asked self))), answered self []).

(** [datetimenow()] *)
Definition datetimenow : M string :=
  λ self, (Some (stamp (oracle self (asked self))), answered self []).

(** [MessageBeep()], [ImageGrab.grab()] and [copy_image(image)]: the call
    is made, and the world decides whether it raises. *)
Definition external (e : Effect) : M unit :=
  λ self,
    (if raises (oracle self (asked self)) then None else Some (),
     answered self [e]).

(** [ImageComposite(image, filename)]: a new object, not pinned; [name] is
    the display name [__init__] derives from the file name. *)
Definition ImageComposite_init (name : string) : M ref :=
  λ self,
    (Some (length (heap self)),
     set_heap self (heap self ++ [{| filename := name; pinnation := false |}])).

(** [image.pinnation.get()] *)
Definition pinnation_get (h : list ImageComposite) (image : ref) : bool :=
  match h !! image with
  | Some composite => pinnation composite
  | None => false
  end.

(** [App.add_image] *)
Definition add_image (name : string) : M unit :=
  image ← ImageComposite_init name;
  self ← get;
  match Deque.deque_append_with_predicate (_images self) image
          (pinnation_get (heap self)) with
  | Some dq => modify (λ self, set_images self dq)
  | None => raise
  end.

(** [App.add_images]: the generator of composites is consumed by
    [deque_extend_with_predicate]; the composites it creates are new and
    not pinned. *)
Definition add_images (names : list string) : M unit :=
  self ← get;
  let images := seq (length (heap self)) (length names) in
  let h := heap self
           ++ ((λ name, {| filename := name; pinnation := false |}) <$> names) in
  modify (λ self, set_heap self h);;
  match Deque.deque_extend_with_predicate (_images self) images
          (pinnation_get h) with
  | Some dq => modify (λ self, set_images self dq)
  | None => raise
  end.

(** [App._command_action_take] *)
Definition _command_action_take : M unit :=
  external ImageGrab_grab;;
  self ← get;
  (if _copy_upon_take self then external copy_image else mret ());;
  name ← datetimenow;
  add_image ("PrtSc " +:+ name).

(** [App._xinput_ltrt_command_action_take] *)
Definition _xinput_ltrt_command_action_take (states : XInput.MappedStates)
  : M unit :=
  t ← time_;
  self ← get;
  if time_lt (time_sub t (_xinput_last_time self)) (_xinput_take_cooldown self)
  then mret ()
  else if negb (XInput.LeftTrigger states =? 255)
          || negb (XInput.RightTrigger states =? 255)
  then mret ()
  else
    external MessageBeep;;
    _command_action_take;;
    t' ← time_;
    modify (λ self, set_xinput_last_time self t').

(** A method as a callback of [XInput]. *)
Definition bound (method : XInput.MappedStates → M unit)
  : XInput.handler App :=
  λ states self,
    match method states self with
    | (Some _, self') => (Returned, self')
    | (None, self') => (Raised, self')
    end.

(** ** The history commands *)

(** [App._reset_images] *)
Definition _reset_images (images : list ref) (self : App) : App :=
  set_images self (Deque.new images (_deque_collect_limit self)).

(** [App._command_view_rotate]: [rotate()] is [rotate(1)]. *)
Definition _command_view_rotate (self : App) : App :=
  set_images self (Deque.rotate (_images self) 1).

(** [App._command_view_rrotate] *)
Definition _command_view_rrotate (self : App) : App :=
  set_images self (Deque.rotate (_images self) (-1)).

(** [App._command_view_nrotate]; [answer] is what [askinteger] returns,
    [None] when the dialog is cancelled. *)
Definition _command_view_nrotate (answer : option Z) (self : App) : App :=
  set_images self (Deque.rotate (_images self) (default 0 answer)).

(** [App._command_view_remove_all] *)
Definition _command_view_remove_all (self : App) : App :=
  _reset_images
    (filter (λ image, pinnation_get (heap self) image = true)
            (Deque.items (_images self)))
    self.

(** [App._command_option_set_deque_limit]; the dialog only returns [None]
    or an integer from 1 to 256, and [or] also falls back on 0. *)
Definition _command_option_set_deque_limit (answer : option nat) (self : App)
  : App :=
  let self1 :=
    set_deque_collect_limit self
      (match answer with
       | Some (S n) => S n
       | Some O | None => _deque_collect_limit self
       end) in
  _reset_images (Deque.items (_images self1)) self1.

(** [App._remove_collected_image] *)
Definition _remove_collected_image (image : ref) : M unit :=
  self ← get;
  match Deque.remove (_images self) image with
  | Some dq => modify (λ self, set_images self dq)
  | None => raise
  end.

(** The "Pin?" entry of the context menu of a shown image flips its
    [pinnation] variable. *)
Definition toggle_pinnation (image : ref) (self : App) : App :=
  if decide (image ∈ Deque.items (_images self)) then
    set_heap self
      (alter (λ composite, {| filename := filename composite;
                              pinnation := negb (pinnation composite) |})
             image (heap self))
  else self.

(** ** The running program: the application, its controller, the timer *)

(** [__xinput_polling_id] is kept as whether a timer started by
    [self._root.after] is still to fire. *)
Record Program := {
  app : App;
  __xinput : XInput.XInput App;
  __xinput_polling_id : bool
}.

(** [App.__poll_for_xinput]; next to the program it returns the events
    handed to a handler. *)
Definition __poll_for_xinput (answer : Z * XInput.XINPUT_STATE) (p : Program)
  : outcome * Program * list XInput.Event :=
  if negb (_xinput_poll (app p)) then
    (Returned,
     {| app := app p; __xinput := __xinput p; __xinput_polling_id := false |},
     [])
  else
    let '(o, x, self, calls) := XInput.update (__xinput p) answer (app p) in
    match o with
    | Returned =>
        (Returned,
         {| app := self; __xinput := x; __xinput_polling_id := true |}, calls)
    | Raised =>
        (Raised,
         {| app := self; __xinput := x;
            __xinput_polling_id := __xinput_polling_id p |}, calls)
    end.

(** The callbacks [App.__init__] hands to [XInput]. *)
Definition registering_callbacks : list (XInput.callback App) :=
  [({| XInput.type := XInput.press; XInput.key := XInput.KeyLeftTrigger |},
    bound _xinput_ltrt_command_action_take);
   ({| XInput.type := XInput.press; XInput.key := XInput.KeyRightTrigger |},
    bound _xinput_ltrt_command_action_take)].

(** [App.__init__], as far as the core goes. *)
Definition App_init (world : nat → Answer) : Program :=
  {| app :=
       {| _images := Deque.new [] LIMIT;
          _deque_collect_limit := LIMIT;
          _xinput_take_cooldown := DELAY;
          _xinput_last_time := now (world O);
          _copy_upon_take := true;
          _xinput_poll := false;
          heap := []; oracle := world; asked := 1%nat; effects := [] |};
     __xinput := XInput.init registering_callbacks;
     __xinput_polling_id := false |}.

(** What can happen to the running program: a menu command, a context-menu
    command on an image, or the timer. *)
Inductive happening :=
| ViewRotate
| ViewRrotate
| ViewRotateBy (answer : option Z)
| ViewRemoveAll
| ActionTake
| ActionLoadFiles (names : list string)
| OptionCollectLimit (answer : option nat)
| OptionLtRtTake (answer : Z * XInput.XINPUT_STATE)
| ImageRemove (image : ref)
| ImagePin (image : ref)
| TimerFires (answer : Z * XInput.XINPUT_STATE).

Definition on_app (f : App → App) (p : Program)
  : outcome * Program * list XInput.Event :=
  (Returned,
   {| app := f (app p); __xinput := __xinput p;
      __xinput_polling_id := __xinput_polling_id p |}, []).

Definition on_app_M (m : M unit) (p : Program)
  : outcome * Program * list XInput.Event :=
  let '(r, self) := m (app p) in
  (if r is Some _ then Returned else Raised,
   {| app := self; __xinput := __xinput p;
      __xinput_polling_id := __xinput_polling_id p |}, []).

Definition happen (h : happening) (p : Program)
  : outcome * Program * list XInput.Event :=
  match h with
  | ViewRotate => on_app _command_view_rotate p
  | ViewRrotate => on_app _command_view_rrotate p
  | ViewRotateBy answer => on_app (_command_view_nrotate answer) p
  | ViewRemoveAll => on_app _command_view_remove_all p
  | ActionTake => on_app_M _command_action_take p
  | ActionLoadFiles names => on_app_M (add_images names) p
  | OptionCollectLimit answer =>
      on_app (_command_option_set_deque_limit answer) p
  | OptionLtRtTake answer =>
      (* the check button flips the variable, then runs its command *)
      __poll_for_xinput answer
        {| app := set_xinput_poll (app p) (negb (_xinput_poll (app p)));
           __xinput := __xinput p;
           __xinput_polling_id := __xinput_polling_id p |}
  | ImageRemove image => on_app_M (_remove_collected_image image) p
  | ImagePin image => on_app (toggle_pinnation image) p
  | TimerFires answer =>
      (* only a timer that is still to fire can fire; it fires once *)
      if __xinput_polling_id p then
        __poll_for_xinput answer
          {| app := app p; __xinput := __xinput p;
             __xinput_polling_id := false |}
      else (Returned, p, [])
  end.

(** A run: the happenings in order (an exception of one of them is
    reported by Tk and the main loop goes on).  It returns the program and
    the events handed to handlers along the way. *)
Fixpoint run (hs : list happening) (p : Program)
  : Program * list XInput.Event :=
  match hs with
  | [] => (p, [])
  | h :: rest =>
      let '(_, p', calls) := happen h p in
      let '(p'', calls') := run rest p' in
      (p'', calls ++ calls')
  end.

End Application.

Arguments Answer : clear implicits.
Arguments App : clear implicits.
Arguments M : clear implicits.
Arguments Program : clear implicits.

(** * Definitions the statements use *)

(** The events one call of [__update_states] puts on the queue: the queue
    it leaves when it starts from an empty one (see [update_states_queue]
    for a queue that is not empty). *)
Definition translate (previous current : XInput.MappedStates)
  : list XInput.Event :=
  XInput.__event_queue
    (XInput.__update_states (W := unit)
       {| XInput.__prev_states := previous;
          XInput.__event_queue := [];
          XInput.__registered_callbacks := [] |}
       current).

(** The events of one trigger axis among some events, in order. *)
Definition events_of (k : XInput.EventKey) (es : list XInput.Event)
  : list XInput.Event :=
  filter (λ e, XInput.key e = k) es.

(** The edge rule for one axis in the words of the specification: a changed
    magnitude that is now 255 is a press, one that is now 0 is a release,
    anything else is no event. *)
Definition axis_events_as_specified (k : XInput.EventKey) (old new : Z)
  : list XInput.Event :=
  if decide (old = new) then []
  else if decide (new = 255) then
    [{| XInput.type := XInput.press; XInput.key := k |}]
  else if decide (new = 0) then
    [{| XInput.type := XInput.release; XInput.key := k |}]
  else [].

(** A snapshot with the given packet number and trigger magnitudes, sticks
    centred and no button down. *)
Definition snapshot (packet left right : Z) : XInput.MappedStates :=
  {| XInput.PacketNumber := packet;
     XInput.LeftTrigger := left;
     XInput.RightTrigger := right;
     XInput.ThumbLX := 0; XInput.ThumbLY := 0;
     XInput.ThumbRX := 0; XInput.ThumbRY := 0;
     XInput.DpadUp := false; XInput.DpadDown := false;
     XInput.DpadLeft := false; XInput.DpadRight := false;
     XInput.Start := false; XInput.Back := false;
     XInput.LeftThumb := false; XInput.RightThumb := false;
     XInput.LeftShoulder := false; XInput.RightShoulder := false;
     XInput.A := false; XInput.B := false; XInput.X := false;
     XInput.Y := false |}.

Definition press_of (k : XInput.EventKey) : XInput.Event :=
  {| XInput.type := XInput.press; XInput.key := k |}.

Definition release_of (k : XInput.EventKey) : XInput.Event :=
  {| XInput.type := XInput.release; XInput.key := k |}.

(** A capture happened between two states of the application:
    [ImageGrab.grab()] is among the effects added. *)
Definition captured {time} (before after : App time) : Prop :=
  ImageGrab_grab ∈ drop (length (effects before)) (effects after).

(** The history is within its limit, and the bound of the deque is the
    collect limit. *)
Definition history_within_limit {time} (self : App time) : Prop :=
  (Deque.len (_images self) ≤ _deque_collect_limit self)%nat
  ∧ Deque.maxlen (_images self) = _deque_collect_limit self.



(** ** A concrete world for the examples

    Clock readings are whole milliseconds, the cooldown is 150 of them, and
    the [n]-th call to the outside is answered one second after the
    previous one. *)
Definition quiet (n : nat) : Answer Z :=
  {| now := 1000 * Z.of_nat n; raises := false; stamp := "" |}.

(** The same world, except that its fourth answer is an exception. *)
Definition grab_fails_once (n : nat) : Answer Z :=
  {| now := 1000 * Z.of_nat n; raises := bool_decide (n = 3%nat); stamp := "" |}.

Definition start (world : nat → Answer Z) : Program Z :=
  App_init Z.sub Z.ltb 150 world.

(** The driver reports success with the given packet number and trigger
    magnitudes. *)
Definition reading (packet left right : Z) : Z * XInput.XINPUT_STATE :=
  (0,
   {| XInput.dwPacketNumber := packet;
      XInput.Gamepad :=
        {| XInput.wButtons := 0;
           XInput.bLeftTrigger := left;
           XInput.bRightTrigger := right;
           XInput.sThumbLX := 0; XInput.sThumbLY := 0;
           XInput.sThumbRX := 0; XInput.sThumbRY := 0 |} |}).

(** A method keeps the history within its limit, however it ends. *)
Definition keeps_limit {time R} (m : M time R) : Prop :=
  ∀ self, history_within_limit self → history_within_limit (m self).2.

(** Every registered handler does. *)
Definition handlers_keep_limit {time}
    (cbs : list (XInput.callback (App time))) : Prop :=
  Forall (λ cb : XInput.callback (App time),
            ∀ states self,
              history_within_limit self →
              history_within_limit (snd cb states self).2)
         cbs.

Definition program_within_limit {time} (p : Program time) : Prop :=
  history_within_limit (app p)
  ∧ handlers_keep_limit (XInput.__registered_callbacks (__xinput p)).

(** Three screenshots taken in the quiet world: the history is [0; 1; 2]. *)
Definition three_shots : Program Z :=
  (run [ActionTake; ActionTake; ActionTake] (start quiet)).1.

(** Two screenshots, the first one pinned afterwards. *)
Definition first_pinned : Program Z :=
  (run [ActionTake; ActionTake; ImagePin 0%nat] (start quiet)).1.



(** * Further definitions the statements use *)

(** An event without a wildcard, as [__update_states] queues them. *)
Definition concrete (e : XInput.Event) : Prop :=
  XInput.type e ≠ XInput.any ∧ XInput.key e ≠ XInput.KeyAny.

(** The callbacks whose pattern matches an event, in registration order. *)
Definition matching {W} (cbs : list (XInput.callback W)) (e : XInput.Event)
  : list (XInput.callback W) :=
  filter (λ cb : XInput.callback W, XInput.Event_eq cb.1 e = true) cbs.

(** A handler over a counter that counts its invocations and returns. *)
Definition counting : XInput.handler nat :=
  λ _ n, (Returned, S n).

(** A handler over a counter that raises at once. *)
Definition failing : XInput.handler nat :=
  λ _ n, (Raised, n).

(** [add_images] with the generator run the way Python runs it: each
    composite is created when [deque_extend_with_predicate] asks for the
    next item, right before it is appended. *)
Fixpoint add_images_lazily {time} (names : list string) : M time () :=
  match names with
  | [] => M_ret unit ()
  | name :: rest =>
      M_bind _ _ (λ _ : (), add_images_lazily rest) (add_image name)
  end.

(** Every reference in the history is allocated, and none occurs twice. *)
Definition history_wellformed {time} (self : App time) : Prop :=
  NoDup (Deque.items (_images self))
  ∧ Forall (λ image : ref, (image < length (heap self))%nat)
           (Deque.items (_images self)).

(** A method keeps a property of the application, however it ends. *)
Definition keeps {time R} (I : App time → Prop) (m : M time R) : Prop :=
  ∀ self, I self → I (m self).2.

(** What holds of the running program between two happenings: the history
    is well formed, the callbacks are the two of [App.__init__], the queue
    holds no wildcard, and a timer is pending only while polling is on. *)
Definition program_sound {time} (time_sub : time → time → time)
    (time_lt : time → time → bool) (p : Program time) : Prop :=
  history_wellformed (app p)
  ∧ XInput.__registered_callbacks (__xinput p)
    = registering_callbacks time_sub time_lt
  ∧ Forall concrete (XInput.__event_queue (__xinput p))
  ∧ (__xinput_polling_id p = true → _xinput_poll (app p) = true).

(** The grid of [_refresh_gui]: the label of the image at [index] goes to
    column [index % magic] and row [index // magic]; [None] is the
    [ZeroDivisionError] of a column count of 0. *)
Definition grid_cell (_magic_number index : nat) : option (nat * nat) :=
  match _magic_number with
  | O => None
  | S _ => Some (index mod _magic_number, index / _magic_number)%nat
  end.

(** [Constants.COLUMN] *)
Definition COLUMN : nat := 6.

(** [App._command_option_set_magic_number] on the column count; [answer]
    is what [askinteger] returns. *)
Definition _command_option_set_magic_number (answer : option nat)
    (_magic_number : nat) : nat :=
  match answer with
  | Some (S n) => S n
  | Some O | None => _magic_number
  end.

(** The history is well formed and the polling switch is at [b]. *)
Definition app_sound {time} (b : bool) (self : App time) : Prop :=
  history_wellformed self ∧ _xinput_poll self = b.

(** A press of one of the two triggers. *)
Definition trigger_press (e : XInput.Event) : Prop :=
  e = press_of XInput.KeyLeftTrigger ∨ e = press_of XInput.KeyRightTrigger.

(** A controller over a counter with three events queued; a wildcard
    pattern and the left press are bound to the counting handler. *)
Definition listening : XInput.XInput nat :=
  {| XInput.__prev_states := XInput.MappedStates_default;
     XInput.__event_queue :=
       [press_of XInput.KeyLeftTrigger; release_of XInput.KeyLeftTrigger;
        press_of XInput.KeyRightTrigger];
     XInput.__registered_callbacks :=
       [(press_of XInput.KeyAny, counting);
        (press_of XInput.KeyLeftTrigger, counting)] |}.

(** The same queue; the second callback for a press raises. *)
Definition breaking : XInput.XInput nat :=
  {| XInput.__prev_states := XInput.MappedStates_default;
     XInput.__event_queue :=
       [press_of XInput.KeyLeftTrigger; release_of XInput.KeyLeftTrigger;
        press_of XInput.KeyRightTrigger];
     XInput.__registered_callbacks :=
       [(press_of XInput.KeyLeftTrigger, counting);
        (press_of XInput.KeyAny, failing)] |}.

(** * Facts about XInput *)

(** The tests of [__update_states], axis by axis: changed or not, then
    255, 0 or in between. *)
Ltac edge_cases previous current :=
  destruct (Z.eqb_spec (XInput.LeftTrigger previous)
              (XInput.LeftTrigger current));
  destruct (Z.eqb_spec (XInput.LeftTrigger current) 255);
  destruct (Z.eqb_spec (XInput.LeftTrigger current) 0);
  simpl;
  destruct (Z.eqb_spec (XInput.RightTrigger previous)
              (XInput.RightTrigger current));
  destruct (Z.eqb_spec (XInput.RightTrigger current) 255);
  destruct (Z.eqb_spec (XInput.RightTrigger current) 0);
  simpl.

Section XInputFacts.

Context {W : Type}.
Implicit Types (self : XInput.XInput W) (s : XInput.MappedStates).

Lemma update_states_same_packet self s :
  XInput.PacketNumber (XInput.__prev_states self) = XInput.PacketNumber s →
  XInput.__update_states self s = self.
Proof.
  intros Heq. unfold XInput.__update_states.
  by rewrite Heq, Z.eqb_refl.
Qed.

(** The queue after [__update_states] is the queue before it followed by
    what [translate] yields for the stored and the new snapshot. *)
Lemma update_states_queue self s :
  XInput.__event_queue (XInput.__update_states self s)
  = XInput.__event_queue self ++ translate (XInput.__prev_states self) s.
Proof.
  unfold translate, XInput.__update_states. simpl.
  destruct (Z.eqb_spec (XInput.PacketNumber (XInput.__prev_states self))
              (XInput.PacketNumber s)) as [Hp|Hp]; simpl.
  - by rewrite app_nil_r.
  - edge_cases (XInput.__prev_states self) s;
      rewrite ?app_nil_r, <- ?app_assoc; reflexivity.
Qed.

Lemma update_states_new_packet self s :
  XInput.PacketNumber (XInput.__prev_states self) ≠ XInput.PacketNumber s →
  XInput.__prev_states (XInput.__update_states self s) = s.
Proof.
  intros Hp. unfold XInput.__update_states.
  destruct (Z.eqb_spec (XInput.PacketNumber (XInput.__prev_states self))
              (XInput.PacketNumber s)); done.
Qed.

Lemma update_states_callbacks self s :
  XInput.__registered_callbacks (XInput.__update_states self s)
  = XInput.__registered_callbacks self.
Proof.
  unfold XInput.__update_states.
  repeat (case_match; simpl); reflexivity.
Qed.

End XInputFacts.

(** [translate] follows the edge rule of the specification, left axis
    first, whenever the packet number changed. *)
Lemma translate_as_specified (previous current : XInput.MappedStates) :
  XInput.PacketNumber previous ≠ XInput.PacketNumber current →
  translate previous current
  = axis_events_as_specified XInput.KeyLeftTrigger
      (XInput.LeftTrigger previous) (XInput.LeftTrigger current)
    ++ axis_events_as_specified XInput.KeyRightTrigger
         (XInput.RightTrigger previous) (XInput.RightTrigger current).
Proof.
  intros Hp. unfold translate, XInput.__update_states, axis_events_as_specified.
  simpl. destruct (Z.eqb_spec (XInput.PacketNumber previous)
                     (XInput.PacketNumber current)); [done|].
  edge_cases previous current;
    repeat case_decide; simpl; try reflexivity; try lia.
Qed.

(** ** Event matching *)

(** C6: [Event.__eq__] is wildcard-aware and symmetric: two events match
    exactly when their kinds are equal or one of them is [any], and their
    sources are equal or one of them is [Any].  So the pattern (any, Any)
    matches every event, and (press, Any) matches press(LeftTrigger) and
    press(RightTrigger) but not release(LeftTrigger). *)
Theorem event_matching_wildcard :
  (∀ a b : XInput.Event,
     XInput.Event_eq a b = true ↔
     (XInput.type a = XInput.type b ∨ XInput.type a = XInput.any
      ∨ XInput.type b = XInput.any)
     ∧ (XInput.key a = XInput.key b ∨ XInput.key a = XInput.KeyAny
        ∨ XInput.key b = XInput.KeyAny))
  ∧ (∀ a b : XInput.Event, XInput.Event_eq a b = XInput.Event_eq b a)
  ∧ (∀ e : XInput.Event,
       XInput.Event_eq
         {| XInput.type := XInput.any; XInput.key := XInput.KeyAny |} e = true)
  ∧ XInput.Event_eq (press_of XInput.KeyAny) (press_of XInput.KeyLeftTrigger)
    = true
  ∧ XInput.Event_eq (press_of XInput.KeyAny) (press_of XInput.KeyRightTrigger)
    = true
  ∧ XInput.Event_eq (press_of XInput.KeyAny)
      (release_of XInput.KeyLeftTrigger) = false.
Proof.
  split; [|split; [|split; [|by vm_compute]]].
  - intros a b. unfold XInput.Event_eq.
    rewrite andb_true_iff, !orb_true_iff, !bool_decide_eq_true.
    tauto.
  - intros [ta ka] [tb kb]. by destruct ta, tb, ka, kb.
  - intros [t k]. by destruct t, k.
Qed.

(** ** Edge detection *)

(** C2: when the new snapshot carries the packet number of the stored one,
    [__update_states] yields no event and the queue stays as it was,
    whatever the trigger magnitudes of the two snapshots are. *)
Theorem stale_packet_no_events {W} (self : XInput.XInput W)
    (s : XInput.MappedStates) :
  XInput.PacketNumber (XInput.__prev_states self) = XInput.PacketNumber s →
  translate (XInput.__prev_states self) s = []
  ∧ XInput.__event_queue (XInput.__update_states self s)
    = XInput.__event_queue self.
Proof.
  intros Heq. split.
  - unfold translate. rewrite update_states_same_packet; done.
  - by rewrite update_states_same_packet.
Qed.

(** C3: when the packet number changed, each trigger axis is judged on its
    own: a changed magnitude that is now 255 gives exactly one press event
    of that axis, one that is now 0 exactly one release event, a magnitude
    from 1 to 254 gives no event of that axis; and the events of the left
    axis come before those of the right axis. *)
Theorem trigger_edges (previous current : XInput.MappedStates) :
  XInput.PacketNumber previous ≠ XInput.PacketNumber current →
  let left := events_of XInput.KeyLeftTrigger (translate previous current) in
  let right := events_of XInput.KeyRightTrigger (translate previous current) in
  translate previous current = left ++ right
  ∧ (XInput.LeftTrigger previous ≠ XInput.LeftTrigger current →
     XInput.LeftTrigger current = 255 →
     left = [press_of XInput.KeyLeftTrigger])
  ∧ (XInput.LeftTrigger previous ≠ XInput.LeftTrigger current →
     XInput.LeftTrigger current = 0 →
     left = [release_of XInput.KeyLeftTrigger])
  ∧ (1 ≤ XInput.LeftTrigger current ≤ 254 → left = [])
  ∧ (XInput.RightTrigger previous ≠ XInput.RightTrigger current →
     XInput.RightTrigger current = 255 →
     right = [press_of XInput.KeyRightTrigger])
  ∧ (XInput.RightTrigger previous ≠ XInput.RightTrigger current →
     XInput.RightTrigger current = 0 →
     right = [release_of XInput.KeyRightTrigger])
  ∧ (1 ≤ XInput.RightTrigger current ≤ 254 → right = []).
Proof.
  intros Hp left right. subst left right.
  rewrite translate_as_specified by done.
  unfold axis_events_as_specified, events_of.
  repeat case_decide; vm_compute filter;
    repeat split; intros; first [reflexivity | lia].
Qed.

(** C8, as the program has it: a call whose snapshot carries a new packet
    number stores that snapshot as the previous one, whether or not it
    yields events; a call whose snapshot carries the stored packet number
    changes nothing, so the stored snapshot stays. *)
Theorem previous_snapshot_after_update {W} (self : XInput.XInput W)
    (s : XInput.MappedStates) :
  (XInput.PacketNumber (XInput.__prev_states self) ≠ XInput.PacketNumber s →
   XInput.__prev_states (XInput.__update_states self s) = s)
  ∧ (XInput.PacketNumber (XInput.__prev_states self) = XInput.PacketNumber s →
     XInput.__update_states self s = self).
Proof.
  split; [apply update_states_new_packet|apply update_states_same_packet].
Qed.

(** * Facts about the bounded deque *)

Section DequeFacts.

Context {T : Type} `{EqDecision T}.
Implicit Types (dq : Deque.deque T) (l : list T) (x : T).
Local Open Scope nat_scope.

Lemma append_room dq x :
  Deque.len dq < Deque.maxlen dq →
  Deque.append dq x
  = {| Deque.items := Deque.items dq ++ [x]; Deque.maxlen := Deque.maxlen dq |}.
Proof.
  unfold Deque.append, Deque.len. intros Hlt.
  rewrite length_app. simpl.
  destruct (Nat.ltb_spec (Deque.maxlen dq) (length (Deque.items dq) + 1));
    [lia|done].
Qed.

Lemma append_len dq x :
  Deque.len dq ≤ Deque.maxlen dq →
  Deque.len (Deque.append dq x) ≤ Deque.maxlen dq.
Proof.
  unfold Deque.append, Deque.len. intros Hle. simpl.
  destruct (Nat.ltb_spec (Deque.maxlen dq) (length (Deque.items dq ++ [x])))
    as [Hlt|Hge]; [|done].
  rewrite length_drop, length_app. simpl. lia.
Qed.

(** The scan and the removal that follows it agree on the position: the
    first rejected object is removed where the scan met it. *)
Lemma first_rejected_at (predicate : T → bool) l i x :
  l !! i = Some x →
  predicate x = false →
  (∀ j y, j < i → l !! j = Some y → predicate y = true) →
  Deque.first_rejected predicate l = Some x
  ∧ Deque.remove_first x l = Some (delete i l).
Proof.
  revert i. induction l as [|y l IH]; intros i Hi Hx Hbefore; [done|].
  destruct i as [|i]; simpl in *.
  - simplify_eq. rewrite Hx. simpl. by rewrite decide_True.
  - assert (predicate y = true) as Hy by (apply (Hbefore 0 y); [lia|done]).
    rewrite Hy. simpl.
    destruct (IH i Hi Hx) as [-> Hrem].
    { intros j z Hj Hz. apply (Hbefore (S j) z); [lia|done]. }
    split; [done|].
    rewrite decide_False; [by rewrite Hrem|].
    intros ->. congruence.
Qed.

Lemma first_rejected_none (predicate : T → bool) l :
  Forall (λ y, predicate y = true) l →
  Deque.first_rejected predicate l = None.
Proof.
  induction 1 as [|y l Hy _ IH]; [done|].
  simpl. by rewrite Hy.
Qed.

(** Whatever the scan returns can be removed, with one item less. *)
Lemma first_rejected_removable (predicate : T → bool) l x :
  Deque.first_rejected predicate l = Some x →
  ∃ l', Deque.remove_first x l = Some l' ∧ S (length l') = length l.
Proof.
  induction l as [|y l IH]; [done|]. simpl.
  destruct (predicate y); simpl.
  - intros Hx. destruct (IH Hx) as (l' & Hl' & Hlen).
    destruct (decide (y = x)); [by eexists|].
    rewrite Hl'. simpl. eexists; split; [done|]. simpl. lia.
  - intros [= ->]. rewrite decide_True by done. by eexists.
Qed.

Lemma deque_append_with_predicate_returns dq x (predicate : T → bool) :
  ∃ dq', Deque.deque_append_with_predicate dq x predicate = Some dq'
         ∧ Deque.maxlen dq' = Deque.maxlen dq
         ∧ (Deque.len dq ≤ Deque.maxlen dq → Deque.len dq' ≤ Deque.maxlen dq).
Proof.
  unfold Deque.deque_append_with_predicate.
  destruct (Nat.eqb_spec (Deque.len dq) (Deque.maxlen dq)) as [Hfull|Hroom].
  - destruct (Deque.first_rejected predicate (Deque.items dq)) as [object|]
      eqn:Hscan; [|by eexists].
    destruct (first_rejected_removable _ _ _ Hscan) as (l' & Hl' & Hlen).
    unfold Deque.remove. rewrite Hl'. simpl.
    eexists; split; [done|]. split; [done|]. intros _.
    apply (append_len {| Deque.items := l'; Deque.maxlen := Deque.maxlen dq |}).
    unfold Deque.len in *. simpl. lia.
  - eexists; split; [done|]. split; [done|]. apply append_len.
Qed.

Lemma deque_extend_with_predicate_returns dq l (predicate : T → bool) :
  ∃ dq', Deque.deque_extend_with_predicate dq l predicate = Some dq'
         ∧ Deque.maxlen dq' = Deque.maxlen dq
         ∧ (Deque.len dq ≤ Deque.maxlen dq → Deque.len dq' ≤ Deque.maxlen dq).
Proof.
  revert dq. induction l as [|x l IH]; intros dq; simpl; [by eexists|].
  destruct (deque_append_with_predicate_returns dq x predicate)
    as (dq1 & -> & Hmax1 & Hlen1).
  destruct (IH dq1) as (dq2 & -> & Hmax2 & Hlen2).
  eexists; split; [done|]. rewrite Hmax2, Hmax1. split; [done|].
  intros Hle. rewrite <- Hmax1. apply Hlen2. rewrite Hmax1. auto.
Qed.

(** C1: [deque_append_with_predicate] on a history within its bound.  Below
    the bound it appends.  At the bound it scans the items in order for the
    first one the predicate (the pinned flag) rejects and, if there is one,
    removes exactly that item and appends the new one; if every item is
    pinned it returns the history as it was, the new item is dropped.  No
    case raises. *)
Theorem insert_with_pinned_guard dq (__object : T) (predicate : T → bool) :
  (Deque.len dq < Deque.maxlen dq →
   Deque.deque_append_with_predicate dq __object predicate
   = Some {| Deque.items := Deque.items dq ++ [__object];
             Deque.maxlen := Deque.maxlen dq |})
  ∧ (Deque.len dq = Deque.maxlen dq →
     ∀ i x,
       Deque.items dq !! i = Some x →
       predicate x = false →
       (∀ j y, j < i → Deque.items dq !! j = Some y → predicate y = true) →
       Deque.deque_append_with_predicate dq __object predicate
       = Some {| Deque.items := delete i (Deque.items dq) ++ [__object];
                 Deque.maxlen := Deque.maxlen dq |})
  ∧ (Deque.len dq = Deque.maxlen dq →
     Forall (λ y, predicate y = true) (Deque.items dq) →
     Deque.deque_append_with_predicate dq __object predicate = Some dq)
  ∧ is_Some (Deque.deque_append_with_predicate dq __object predicate).
Proof.
  unfold Deque.deque_append_with_predicate.
  split; [|split; [|split]].
  - intros Hlt.
    destruct (Nat.eqb_spec (Deque.len dq) (Deque.maxlen dq)); [lia|].
    by rewrite append_room.
  - intros Hfull i x Hi Hx Hbefore.
    rewrite Hfull, Nat.eqb_refl.
    destruct (first_rejected_at predicate _ i x Hi Hx Hbefore) as [-> Hrem].
    unfold Deque.remove. rewrite Hrem. simpl.
    rewrite append_room; [done|].
    unfold Deque.len in *. simpl.
    rewrite length_delete by eauto.
    apply lookup_lt_Some in Hi. lia.
  - intros Hfull Hall.
    rewrite Hfull, Nat.eqb_refl.
    by rewrite first_rejected_none.
  - destruct (deque_append_with_predicate_returns dq __object predicate)
      as (dq' & Hdq' & _).
    unfold Deque.deque_append_with_predicate in Hdq'. by rewrite Hdq'.
Qed.

End DequeFacts.

Section DequeShape.

Context {T : Type} `{EqDecision T}.
Implicit Types (dq : Deque.deque T) (l : list T) (x : T).
Local Open Scope nat_scope.

(** ** [deque(iterable, maxlen=n)] keeps the last [n] items *)

Lemma foldl_append_maxlen dq l :
  Deque.maxlen (foldl Deque.append dq l) = Deque.maxlen dq.
Proof. revert dq. induction l as [|x l IH]; intros dq; simpl; [done|]. by rewrite IH. Qed.

Lemma foldl_append_items dq l :
  Deque.len dq ≤ Deque.maxlen dq →
  Deque.items (foldl Deque.append dq l)
  = drop (length (Deque.items dq ++ l) - Deque.maxlen dq) (Deque.items dq ++ l).
Proof.
  revert dq. induction l as [|x l IH]; intros dq Hle; simpl.
  - unfold Deque.len in Hle. rewrite app_nil_r.
    replace (length (Deque.items dq) - Deque.maxlen dq) with 0 by lia. done.
  - rewrite IH by apply (append_len dq x Hle).
    unfold Deque.append, Deque.len in *. simpl.
    destruct (Nat.ltb_spec (Deque.maxlen dq) (length (Deque.items dq ++ [x])))
      as [Hlt|Hge].
    + rewrite length_app in Hlt. simpl in Hlt.
      assert (length (Deque.items dq) = Deque.maxlen dq) as Hfull by lia.
      destruct (Deque.items dq) as [|y l0] eqn:Hitems; simpl in *.
      * rewrite <- Hfull. by rewrite Nat.sub_0_r.
      * rewrite <- Hfull. rewrite drop_0, <- app_assoc. simpl.
        rewrite !length_app. simpl.
        replace (length l0 + S (length l) - S (length l0)) with (length l) by lia.
        replace (length l0 + S (length l) - length l0)
          with (S (length l)) by lia.
        done.
    + by rewrite <- app_assoc.
Qed.

Lemma new_items l n :
  Deque.items (Deque.new l n) = drop (length l - n) l
  ∧ Deque.maxlen (Deque.new l n) = n.
Proof.
  unfold Deque.new. split; [|by rewrite foldl_append_maxlen].
  rewrite foldl_append_items; [done|]. unfold Deque.len. simpl. lia.
Qed.

Lemma new_len l n : Deque.len (Deque.new l n) ≤ n.
Proof.
  unfold Deque.len. destruct (new_items l n) as [-> _].
  rewrite length_drop. lia.
Qed.

(** ** [deque.rotate] *)

Lemma rotate_left1_right1 l : Deque.rotate_left1 (Deque.rotate_right1 l) = l.
Proof.
  unfold Deque.rotate_right1.
  destruct (reverse l) as [|x r] eqn:Hrev.
  - by apply (f_equal reverse) in Hrev; rewrite reverse_involutive in Hrev.
  - simpl. rewrite <- reverse_cons, <- Hrev. apply reverse_involutive.
Qed.

Lemma rotate_right1_left1 l : Deque.rotate_right1 (Deque.rotate_left1 l) = l.
Proof.
  destruct l as [|x r]; [done|].
  unfold Deque.rotate_right1. simpl.
  rewrite reverse_snoc. by rewrite reverse_involutive.
Qed.

Lemma iter_left_right n l :
  Nat.iter n Deque.rotate_left1 (Nat.iter n Deque.rotate_right1 l) = l.
Proof.
  revert l. induction n as [|n IH]; intros l; [done|].
  rewrite Nat.iter_succ_r. simpl.
  rewrite rotate_left1_right1. apply IH.
Qed.

Lemma iter_right_left n l :
  Nat.iter n Deque.rotate_right1 (Nat.iter n Deque.rotate_left1 l) = l.
Proof.
  revert l. induction n as [|n IH]; intros l; [done|].
  rewrite Nat.iter_succ_r. simpl.
  rewrite rotate_right1_left1. apply IH.
Qed.

(** [rotate] only looks at its amount modulo the length. *)
Lemma rotate_mod a b l :
  a mod length l = b mod length l → rotate a l = rotate b l.
Proof. unfold rotate. by intros ->. Qed.

Lemma rotate_rotate a b l :
  rotate a (rotate b l) = rotate (a + b) l.
Proof.
  apply list_eq. intros i.
  destruct (decide (i < length l)) as [Hi|Hi].
  - rewrite lookup_rotate_r by by rewrite length_rotate.
    rewrite length_rotate.
    assert (rotate_nat_add a i (length l) < length l) as Hlt.
    { unfold rotate_nat_add.
      pose proof (Z.mod_pos_bound (Z.of_nat a + Z.of_nat i) (Z.of_nat (length l))).
      lia. }
    rewrite !lookup_rotate_r by done.
    f_equal. unfold rotate_nat_add. f_equal.
    rewrite Z2Nat.id by (apply Z.mod_pos_bound; lia).
    rewrite Zplus_mod_idemp_r. f_equal. lia.
  - rewrite !lookup_ge_None_2; [done|rewrite ?length_rotate; lia..].
Qed.

Lemma rotate_left1_rotate l : Deque.rotate_left1 l = rotate 1 l.
Proof.
  destruct l as [|x [|y r]]; [done..|].
  unfold rotate.
  replace (1 mod length (x :: y :: r)) with 1; [done|].
  symmetry. apply Nat.mod_small. simpl. lia.
Qed.

Lemma iter_left_rotate n l :
  Nat.iter n Deque.rotate_left1 l = rotate n l.
Proof.
  induction n as [|n IH]; simpl.
  - unfold rotate. rewrite Nat.Div0.mod_0_l. simpl. by rewrite app_nil_r.
  - rewrite IH, rotate_left1_rotate, rotate_rotate. done.
Qed.

Lemma iter_right_rotate n l :
  Nat.iter n Deque.rotate_right1 l
  = rotate (length l - n mod length l) l.
Proof.
  rewrite <- (iter_right_left n (rotate _ l)).
  f_equal. rewrite iter_left_rotate, rotate_rotate.
  destruct l as [|x r]; [by unfold rotate; rewrite drop_nil, take_nil|].
  set (len := length (x :: r)).
  assert (len ≠ 0) as Hlen by (subst len; simpl; lia).
  rewrite (rotate_mod _ 0).
  - unfold rotate. rewrite Nat.Div0.mod_0_l. simpl. by rewrite app_nil_r.
  - fold len. rewrite Nat.Div0.mod_0_l.
    pose proof (Nat.mod_upper_bound n len Hlen).
    rewrite (Nat.div_mod_eq n len) at 1.
    replace (len * (n / len) + n mod len + (len - n mod len))
      with ((1 + n / len) * len) by lia.
    apply Nat.Div0.mod_mul.
Qed.

Lemma opp_mod (n len : Z) :
  (0 < len)%Z → ((- n) mod len = (len - n mod len) mod len)%Z.
Proof.
  intros Hlen.
  pose proof (Z.div_mod n len ltac:(lia)) as Hn.
  replace (- n)%Z with (len - n mod len + (- (n / len) - 1) * len)%Z by lia.
  apply Z_mod_plus_full.
Qed.

(** The closed form of [deque.rotate(n)]: each item moves [n] places to
    the right, around the end, which is the library rotation to the left
    by [-n] modulo the length. *)
Lemma rotate_items dq (n : Z) :
  Deque.items (Deque.rotate dq n)
  = rotate
      (Z.to_nat ((- n) mod Z.of_nat (length (Deque.items dq))))
      (Deque.items dq).
Proof.
  unfold Deque.rotate. simpl.
  destruct (Deque.items dq) as [|x r] eqn:Hitems.
  { destruct (0 <=? n)%Z.
    - rewrite iter_right_rotate. unfold rotate. by rewrite !drop_nil, !take_nil.
    - rewrite iter_left_rotate. unfold rotate. by rewrite !drop_nil, !take_nil. }
  rewrite <- Hitems.
  set (l := Deque.items dq).
  assert (length l ≠ 0) as Hlen by (subst l; rewrite Hitems; simpl; lia).
  destruct (Z.leb_spec 0 n) as [Hn|Hn].
  - rewrite iter_right_rotate. apply rotate_mod.
    pose proof (Nat.mod_upper_bound (Z.to_nat n) (length l) Hlen) as Hub.
    apply Nat2Z.inj. rewrite !Nat2Z.inj_mod.
    rewrite Z2Nat.id by (apply Z.mod_pos_bound; lia).
    rewrite Zmod_mod.
    rewrite Nat2Z.inj_sub by lia. rewrite Nat2Z.inj_mod, Z2Nat.id by lia.
    symmetry. apply opp_mod. lia.
  - rewrite iter_left_rotate. apply rotate_mod.
    apply Nat2Z.inj. rewrite !Nat2Z.inj_mod.
    rewrite !Z2Nat.id by first [lia | apply Z.mod_pos_bound; lia].
    by rewrite Zmod_mod.
Qed.

End DequeShape.

(** * Facts about the history commands *)

Section HistoryFacts.

Context {time : Type}.
Implicit Types (self : App time) (dq : Deque.deque ref).


Lemma rotate_length dq (n : Z) :
  length (Deque.items (Deque.rotate dq n)) = length (Deque.items dq).
Proof. by rewrite rotate_items, length_rotate. Qed.

Lemma rotate_back dq (n : Z) : Deque.rotate (Deque.rotate dq n) (- n) = dq.
Proof.
  destruct dq as [l m]. unfold Deque.rotate. simpl. f_equal.
  destruct (Z.leb_spec 0 n) as [Hn|Hn]; destruct (Z.leb_spec 0 (- n)) as [Hm|Hm].
  - replace n with 0 by lia. done.
  - rewrite Z.opp_involutive. apply iter_left_right.
  - apply iter_right_left.
  - lia.
Qed.




End HistoryFacts.

(** * The history stays within its limit *)

Section DispatchFacts.

Context {W : Type} (P : W → Prop).
Implicit Types (cbs : list (XInput.callback W)) (w : W).

Lemma run_callbacks_keeps cbs event states w :
  Forall (λ cb : XInput.callback W, ∀ s w', P w' → P (snd cb s w').2) cbs →
  P w → P (XInput.run_callbacks cbs event states w).1.2.
Proof.
  intros Hcbs. revert w.
  induction Hcbs as [|cb cbs Hcb _ IH]; intros w Hw; simpl; [done|].
  destruct (XInput.Event_eq cb.1 event); [|by apply IH].
  specialize (Hcb states w Hw).
  destruct (cb.2 states w) as [[] w']; simpl in *; [|done].
  specialize (IH w' Hcb).
  by destruct (XInput.run_callbacks cbs event states w') as [[o w''] calls].
Qed.

Lemma drain_keeps cbs states queue w :
  Forall (λ cb : XInput.callback W, ∀ s w', P w' → P (snd cb s w').2) cbs →
  P w → P (XInput.drain cbs states queue w).1.2.
Proof.
  intros Hcbs. revert w.
  induction queue as [|event rest IH]; intros w Hw; simpl; [done|].
  pose proof (run_callbacks_keeps cbs event states w Hcbs Hw) as Hrun.
  destruct (XInput.run_callbacks cbs event states w) as [[[] w'] calls];
    simpl in *; [|done].
  specialize (IH w' Hrun).
  by destruct (XInput.drain cbs states rest w') as [[[o q] w''] calls'].
Qed.

Lemma update_keeps (x : XInput.XInput W) answer w :
  Forall (λ cb : XInput.callback W, ∀ s w', P w' → P (snd cb s w').2)
         (XInput.__registered_callbacks x) →
  P w →
  P (XInput.update x answer w).1.2
  ∧ XInput.__registered_callbacks (XInput.update x answer w).1.1.2
    = XInput.__registered_callbacks x.
Proof.
  intros Hcbs Hw. unfold XInput.update, XInput.__handle_events.
  set (x1 := match XInput.poll answer with
             | Some new_states => XInput.__update_states x new_states
             | None => x
             end).
  assert (XInput.__registered_callbacks x1 = XInput.__registered_callbacks x)
    as Hsame.
  { unfold x1. destruct (XInput.poll answer); [|done].
    apply update_states_callbacks. }
  rewrite Hsame.
  pose proof (drain_keeps (XInput.__registered_callbacks x)
                (XInput.__prev_states x1) (XInput.__event_queue x1) w
                Hcbs Hw) as Hdrain.
  by destruct (XInput.drain _ _ _ w) as [[[o q] w'] calls].
Qed.

End DispatchFacts.

Section LimitFacts.

Context {time : Type}.
Context (time_sub : time → time → time) (time_lt : time → time → bool).
Implicit Types (self : App time) (p : Program time).

Lemma bind_keeps {R1 R2} (m : M time R1) (f : R1 → M time R2) :
  keeps_limit m → (∀ r, keeps_limit (f r)) → keeps_limit (M_bind _ _ f m).
Proof.
  intros Hm Hf self Hself. unfold M_bind.
  specialize (Hm self Hself).
  destruct (m self) as [[r|] self']; [|done].
  by apply Hf.
Qed.

Lemma ret_keeps {R} (r : R) : keeps_limit (M_ret (time := time) R r).
Proof. by intros self. Qed.

Lemma get_keeps : keeps_limit (get (time := time)).
Proof. by intros self. Qed.

Lemma raise_keeps {R} : keeps_limit (raise (time := time) (R := R)).
Proof. by intros self. Qed.

Lemma time_keeps : keeps_limit (time_ (time := time)).
Proof. by intros self. Qed.

Lemma datetimenow_keeps : keeps_limit (datetimenow (time := time)).
Proof. by intros self. Qed.

Lemma external_keeps e : keeps_limit (external (time := time) e).
Proof. by intros self. Qed.

Lemma set_xinput_last_time_keeps t :
  keeps_limit (modify (λ self, set_xinput_last_time self t)).
Proof. by intros self. Qed.

Lemma ImageComposite_init_keeps name :
  keeps_limit (ImageComposite_init (time := time) name).
Proof. by intros self. Qed.

Lemma add_image_keeps name : keeps_limit (add_image (time := time) name).
Proof.
  intros self [Hlen Hmax].
  unfold add_image, mbind, M_bind, ImageComposite_init, get, modify, raise.
  simpl.
  destruct (deque_append_with_predicate_returns (_images self)
              (length (heap self))
              (pinnation_get
                 (heap self ++ [{| filename := name; pinnation := false |}])))
    as (dq' & -> & Hmax' & Hlen').
  simpl. split; simpl; [|congruence].
  rewrite <- Hmax. apply Hlen'. by rewrite Hmax.
Qed.

Lemma add_images_keeps names : keeps_limit (add_images (time := time) names).
Proof.
  intros self [Hlen Hmax].
  unfold add_images, mbind, M_bind, get, modify, raise. simpl.
  destruct (deque_extend_with_predicate_returns (_images self)
              (seq (length (heap self)) (length names))
              (pinnation_get
                 (heap self
                  ++ ((λ name, {| filename := name; pinnation := false |})
                      <$> names))))
    as (dq' & -> & Hmax' & Hlen').
  simpl. split; simpl; [|congruence].
  rewrite <- Hmax. apply Hlen'. by rewrite Hmax.
Qed.

Lemma _command_action_take_keeps :
  keeps_limit (_command_action_take (time := time)).
Proof.
  unfold _command_action_take.
  apply bind_keeps; [apply external_keeps|]. intros _.
  apply bind_keeps; [apply get_keeps|]. intros self.
  apply bind_keeps.
  { destruct (_copy_upon_take self); [apply external_keeps|apply ret_keeps]. }
  intros _. apply bind_keeps; [apply datetimenow_keeps|]. intros name.
  apply add_image_keeps.
Qed.

Lemma _xinput_ltrt_command_action_take_keeps states :
  keeps_limit (_xinput_ltrt_command_action_take time_sub time_lt states).
Proof.
  unfold _xinput_ltrt_command_action_take.
  apply bind_keeps; [apply time_keeps|]. intros t.
  apply bind_keeps; [apply get_keeps|]. intros self.
  destruct (time_lt _ _); [apply ret_keeps|].
  destruct (_ || _); [apply ret_keeps|].
  apply bind_keeps; [apply external_keeps|]. intros _.
  apply bind_keeps; [apply _command_action_take_keeps|]. intros _.
  apply bind_keeps; [apply time_keeps|]. intros t'.
  apply set_xinput_last_time_keeps.
Qed.

Lemma _remove_collected_image_keeps image :
  keeps_limit (_remove_collected_image (time := time) image).
Proof.
  intros self [Hlen Hmax].
  unfold _remove_collected_image, mbind, M_bind, get, modify, raise,
    Deque.remove. simpl.
  destruct (Deque.remove_first image (Deque.items (_images self)))
    as [l'|] eqn:Hrem; simpl; [|done].
  split; simpl; [|done].
  assert (length l' ≤ length (Deque.items (_images self)))%nat; [|unfold Deque.len in *; simpl; lia].
  clear -Hrem. revert l' Hrem.
  induction (Deque.items (_images self)) as [|y l IH]; intros l' Hrem;
    simpl in *; [done|].
  destruct (decide (y = image)); simplify_eq; [lia|].
  destruct (Deque.remove_first image l) as [l''|]; simplify_eq/=.
  specialize (IH _ eq_refl). lia.
Qed.

Lemma _reset_images_keeps images self :
  history_within_limit (_reset_images images self).
Proof.
  unfold history_within_limit, _reset_images. simpl.
  split; [apply new_len|apply new_items].
Qed.

Lemma rotate_keeps (n : Z) self :
  history_within_limit self →
  history_within_limit (set_images self (Deque.rotate (_images self) n)).
Proof.
  intros [Hlen Hmax]. split; simpl; [|done].
  unfold Deque.len in *. by rewrite rotate_length.
Qed.

Lemma toggle_pinnation_keeps image self :
  history_within_limit self → history_within_limit (toggle_pinnation image self).
Proof. unfold toggle_pinnation. by case_decide. Qed.

Lemma registering_callbacks_keep :
  handlers_keep_limit (registering_callbacks time_sub time_lt).
Proof.
  assert (∀ states self,
            history_within_limit self →
            history_within_limit
              (bound (_xinput_ltrt_command_action_take time_sub time_lt)
                 states self).2) as Hbound.
  { intros states self Hself. unfold bound.
    pose proof (_xinput_ltrt_command_action_take_keeps states self Hself).
    by destruct (_xinput_ltrt_command_action_take _ _ states self) as [[|] ?]. }
  constructor; [exact Hbound|]. constructor; [exact Hbound|]. constructor.
Qed.

Lemma __poll_for_xinput_keeps answer p :
  program_within_limit p →
  program_within_limit (__poll_for_xinput answer p).1.2.
Proof.
  intros [Happ Hcbs]. unfold __poll_for_xinput.
  destruct (_xinput_poll (app p)); simpl; [|done].
  destruct (update_keeps history_within_limit (__xinput p) answer (app p)
              Hcbs Happ) as [Happ' Hcbs'].
  destruct (XInput.update (__xinput p) answer (app p)) as [[[o x] self] calls].
  simpl in *. destruct o; split; simpl; try done; by rewrite Hcbs'.
Qed.

Lemma on_app_M_keeps (m : M time ()) p :
  keeps_limit m → program_within_limit p →
  program_within_limit (on_app_M m p).1.2.
Proof.
  intros Hm [Happ Hcbs]. unfold on_app_M.
  specialize (Hm (app p) Happ).
  by destruct (m (app p)) as [r self].
Qed.

Lemma happen_keeps h p :
  program_within_limit p → program_within_limit (happen h p).1.2.
Proof.
  intros Hp. pose proof Hp as [Happ Hcbs].
  destruct h; simpl.
  - split; [by apply rotate_keeps|done].
  - split; [by apply rotate_keeps|done].
  - split; [by apply rotate_keeps|done].
  - split; [apply _reset_images_keeps|done].
  - by apply on_app_M_keeps; [apply _command_action_take_keeps|].
  - by apply on_app_M_keeps; [apply add_images_keeps|].
  - split; [apply _reset_images_keeps|done].
  - by apply __poll_for_xinput_keeps.
  - by apply on_app_M_keeps; [apply _remove_collected_image_keeps|].
  - split; [by apply toggle_pinnation_keeps|done].
  - destruct (__xinput_polling_id p); [|done].
    by apply __poll_for_xinput_keeps.
Qed.

Lemma run_keeps hs p :
  program_within_limit p → program_within_limit (run hs p).1.
Proof.
  revert p. induction hs as [|h hs IH]; intros p Hp; simpl; [done|].
  pose proof (happen_keeps h p Hp) as Hp'.
  destruct (happen h p) as [[o p'] calls]. simpl in Hp'.
  specialize (IH p' Hp').
  by destruct (run hs p') as [p'' calls'].
Qed.

Lemma App_init_within_limit (DELAY : time) world :
  program_within_limit (App_init time_sub time_lt DELAY world).
Proof.
  split; simpl.
  - split; simpl; [unfold Deque.len; simpl; unfold LIMIT; lia|done].
  - apply registering_callbacks_keep.
Qed.

(** C9: the size of the history never exceeds the collect limit.  It holds
    when the program starts, and every menu command, context-menu command
    and timer tick keeps it: taking and loading (insert, insert many),
    remove all, the three rotations, removing or pinning one image, and
    setting the collect limit, also to a value below the size.  So it holds
    in every state the program reaches. *)
Theorem size_within_limit_always (DELAY : time) (world : nat → Answer time)
    (hs : list happening) :
  let self := app (run hs (App_init time_sub time_lt DELAY world)).1 in
  (Deque.len (_images self) ≤ _deque_collect_limit self)%nat
  ∧ Deque.maxlen (_images self) = _deque_collect_limit self.
Proof. apply run_keeps, App_init_within_limit. Qed.

End LimitFacts.

(** * The take handler and the polling tick *)

Section DrainFacts.

Context {W : Type}.
Implicit Types (cbs : list (XInput.callback W)) (w : W).




End DrainFacts.

Section TakeFacts.

Context {time : Type}.
Context (time_sub : time → time → time) (time_lt : time → time → bool).
Implicit Types (self : App time) (p : Program time).

Lemma not_captured_answered self : ¬ captured self (answered self []).
Proof.
  unfold captured. simpl. rewrite app_nil_r, drop_all. apply not_elem_of_nil.
Qed.

(** With a trigger short of 255 the handler only reads the clock. *)
Lemma take_idle (states : XInput.MappedStates) self :
  XInput.LeftTrigger states ≠ 255 ∨ XInput.RightTrigger states ≠ 255 →
  _xinput_ltrt_command_action_take time_sub time_lt states self
  = (Some (), answered self []).
Proof.
  intros Hshort.
  unfold _xinput_ltrt_command_action_take, mbind, M_bind, time_, get. simpl.
  destruct (time_lt _ _); [done|].
  destruct (Z.eqb_spec (XInput.LeftTrigger states) 255);
    destruct (Z.eqb_spec (XInput.RightTrigger states) 255); simpl;
    try done.
  lia.
Qed.

(** C10: the take handler captures only when both triggers of the state
    handed to it are at 255 and the cooldown since the last capture is
    over.  With a trigger short of 255 it returns without a capture and
    leaves history, heap, effects and the time of the last capture alone.
    So when one trigger alone is pulled through to 255 in a new packet, the
    press event of that trigger is handed to the handler (once) and
    nothing is captured. *)
Theorem take_needs_both_triggers (states : XInput.MappedStates) self :
  let result :=
    _xinput_ltrt_command_action_take time_sub time_lt states self in
  (captured self result.2 →
   XInput.LeftTrigger states = 255
   ∧ XInput.RightTrigger states = 255
   ∧ time_lt (time_sub (now (oracle self (asked self)))
                       (_xinput_last_time self))
             (_xinput_take_cooldown self) = false)
  ∧ (XInput.LeftTrigger states ≠ 255 ∨ XInput.RightTrigger states ≠ 255 →
     result.1 = Some ()
     ∧ ¬ captured self result.2
     ∧ _images result.2 = _images self
     ∧ heap result.2 = heap self
     ∧ effects result.2 = effects self
     ∧ _xinput_last_time result.2 = _xinput_last_time self)
  ∧ (∀ (x : XInput.XInput (App time)) (answer : Z * XInput.XINPUT_STATE)
       (k : XInput.EventKey),
       XInput.__registered_callbacks x
       = registering_callbacks time_sub time_lt →
       XInput.__event_queue x = [] →
       XInput.poll answer = Some states →
       XInput.PacketNumber (XInput.__prev_states x)
       ≠ XInput.PacketNumber states →
       (k = XInput.KeyLeftTrigger
        ∧ XInput.LeftTrigger (XInput.__prev_states x) ≠ 255
        ∧ XInput.LeftTrigger states = 255
        ∧ XInput.RightTrigger states ≠ 255)
       ∨ (k = XInput.KeyRightTrigger
          ∧ XInput.RightTrigger (XInput.__prev_states x) ≠ 255
          ∧ XInput.RightTrigger states = 255
          ∧ XInput.LeftTrigger states ≠ 255) →
       let '(o, x', self', calls) := XInput.update x answer self in
       o = Returned
       ∧ calls = [press_of k]
       ∧ ¬ captured self self'
       ∧ _images self' = _images self
       ∧ heap self' = heap self).
Proof.
  intros result. split; [|split].
  - intros Hcap. subst result.
    destruct (decide (XInput.LeftTrigger states = 255)) as [Hl|Hl];
      [destruct (decide (XInput.RightTrigger states = 255)) as [Hr|Hr]|].
    + split; [done|]. split; [done|].
      destruct (time_lt _ _) eqn:Hcool; [|done].
      exfalso. revert Hcap.
      unfold _xinput_ltrt_command_action_take, mbind, M_bind, time_, get.
      simpl. rewrite Hcool. apply not_captured_answered.
    + exfalso. revert Hcap. rewrite take_idle by auto.
      apply not_captured_answered.
    + exfalso. revert Hcap. rewrite take_idle by auto.
      apply not_captured_answered.
  - intros Hshort. subst result. rewrite take_idle by done. simpl.
    split; [done|]. split; [apply not_captured_answered|].
    split; [done|]. split; [done|]. split; [apply app_nil_r|done].
  - intros x answer k Hcbs Hqueue Hpoll Hpacket Hsingle.
    assert (XInput.LeftTrigger states ≠ 255
            ∨ XInput.RightTrigger states ≠ 255) as Hshort
      by (destruct Hsingle as [(_ & _ & _ & ?)|(_ & _ & _ & ?)]; auto).
    unfold XInput.update, XInput.__handle_events. rewrite Hpoll.
    rewrite update_states_callbacks, update_states_queue, Hcbs, Hqueue.
    rewrite update_states_new_packet by done.
    rewrite translate_as_specified by done.
    unfold registering_callbacks, axis_events_as_specified.
    destruct Hsingle as [(-> & Hprev & Hl & Hr)|(-> & Hprev & Hr & Hl)];
      repeat case_decide; try lia; simpl;
      unfold bound; rewrite ?take_idle by done; simpl;
      (split; [done|]; split; [done|];
       split; [apply not_captured_answered|done]).
Qed.






End TakeFacts.

(** * The statements at concrete inputs *)

(** Both edges in one packet. *)
Lemma event_queue_example :
  translate (snapshot 0 0 255) (snapshot 1 255 0)
  = [press_of XInput.KeyLeftTrigger; release_of XInput.KeyRightTrigger].
Proof. reflexivity. Qed.

(** C1 with even numbers as the pinned items and a bound of 3: room left,
    one item rejected, every item pinned. *)
Lemma insert_with_pinned_guard_witness :
  Deque.deque_append_with_predicate
    {| Deque.items := [2%nat]; Deque.maxlen := 3 |} 9%nat Nat.even
  = Some {| Deque.items := [2%nat; 9%nat]; Deque.maxlen := 3 |}
  ∧ Deque.deque_append_with_predicate
      {| Deque.items := [2%nat; 3%nat; 4%nat]; Deque.maxlen := 3 |} 9%nat
      Nat.even
    = Some {| Deque.items := [2%nat; 4%nat; 9%nat]; Deque.maxlen := 3 |}
  ∧ Deque.deque_append_with_predicate
      {| Deque.items := [2%nat; 4%nat; 6%nat]; Deque.maxlen := 3 |} 9%nat
      Nat.even
    = Some {| Deque.items := [2%nat; 4%nat; 6%nat]; Deque.maxlen := 3 |}.
Proof.
  split; [|split].
  - apply (proj1 (insert_with_pinned_guard
                    {| Deque.items := [2%nat]; Deque.maxlen := 3 |}
                    9%nat Nat.even)).
    unfold Deque.len. simpl. lia.
  - apply (proj1 (proj2 (insert_with_pinned_guard
                    {| Deque.items := [2%nat; 3%nat; 4%nat];
                       Deque.maxlen := 3 |}
                    9%nat Nat.even)) eq_refl 1%nat 3%nat eq_refl eq_refl).
    intros j y Hj Hy. destruct j as [|j]; [|lia].
    simpl in Hy. injection Hy as <-. reflexivity.
  - apply (proj1 (proj2 (proj2 (insert_with_pinned_guard
                    {| Deque.items := [2%nat; 4%nat; 6%nat];
                       Deque.maxlen := 3 |}
                    9%nat Nat.even)))); [reflexivity|].
    repeat constructor.
Defined.

(** C2 at the initial controller and a snapshot with packet number 0 and
    the left trigger fully pulled. *)
Lemma stale_packet_no_events_witness :
  translate XInput.MappedStates_default (snapshot 0 255 0) = []
  ∧ XInput.__event_queue
      (XInput.__update_states (XInput.init (W := unit) []) (snapshot 0 255 0))
    = [].
Proof.
  apply (stale_packet_no_events (XInput.init (W := unit) [])
           (snapshot 0 255 0)).
  reflexivity.
Defined.

(** C3 at a new packet in which the left trigger reaches 255 and the right
    one falls to 0. *)
Lemma trigger_edges_witness :
  translate (snapshot 0 0 255) (snapshot 1 255 0)
  = [press_of XInput.KeyLeftTrigger] ++ [release_of XInput.KeyRightTrigger].
Proof.
  assert (XInput.PacketNumber (snapshot 0 0 255)
          ≠ XInput.PacketNumber (snapshot 1 255 0)) as Hp by (simpl; lia).
  pose proof (trigger_edges (snapshot 0 0 255) (snapshot 1 255 0) Hp) as H.
  cbv zeta in H.
  destruct H as (Horder & Hpress & _ & _ & _ & Hrelease & _).
  rewrite Horder, Hpress, Hrelease; [reflexivity|simpl; lia..].
Defined.

(** C8 (as the program has it) at the initial controller: a new packet is
    stored, a snapshot with the stored packet number is not. *)
Lemma previous_snapshot_after_update_witness :
  XInput.__prev_states
    (XInput.__update_states (XInput.init (W := unit) []) (snapshot 1 255 0))
  = snapshot 1 255 0
  ∧ XInput.__update_states (XInput.init (W := unit) []) (snapshot 0 255 0)
    = XInput.init [].
Proof.
  split.
  - apply (proj1 (previous_snapshot_after_update
                    (XInput.init (W := unit) []) (snapshot 1 255 0))).
    simpl. lia.
  - apply (proj2 (previous_snapshot_after_update
                    (XInput.init (W := unit) []) (snapshot 0 255 0))).
    reflexivity.
Defined.

(** C8 as stated fails: the first snapshot the driver reports with packet
    number 0, the number of the initial stored state, is not stored, although
    its left trigger is at 255 and the stored one is at 0. *)
Lemma stale_packet_keeps_previous_snapshot :
  XInput.__prev_states
    (XInput.__update_states (XInput.init (W := unit) []) (snapshot 0 255 0))
  = XInput.MappedStates_default
  ∧ XInput.__prev_states
      (XInput.__update_states (XInput.init (W := unit) []) (snapshot 0 255 0))
    ≠ snapshot 0 255 0.
Proof. split; [reflexivity|]. vm_compute. discriminate. Qed.



(** C10 at the freshly started program: the left trigger alone, then both
    triggers. *)
Lemma take_needs_both_triggers_witness :
  (let result :=
     _xinput_ltrt_command_action_take Z.sub Z.ltb (snapshot 1 255 0)
       (app (start quiet)) in
   result.1 = Some ()
   ∧ ¬ captured (app (start quiet)) result.2
   ∧ _images result.2 = _images (app (start quiet))
   ∧ heap result.2 = heap (app (start quiet))
   ∧ effects result.2 = effects (app (start quiet))
   ∧ _xinput_last_time result.2 = _xinput_last_time (app (start quiet)))
  ∧ (let '(o, x', self', calls) :=
       XInput.update (__xinput (start quiet)) (reading 1 255 0)
         (app (start quiet)) in
     o = Returned
     ∧ calls = [press_of XInput.KeyLeftTrigger]
     ∧ ¬ captured (app (start quiet)) self'
     ∧ _images self' = _images (app (start quiet))
     ∧ heap self' = heap (app (start quiet)))
  ∧ XInput.LeftTrigger (snapshot 1 255 255) = 255
    ∧ XInput.RightTrigger (snapshot 1 255 255) = 255
    ∧ (1000 - 0 <? 150) = false.
Proof.
  split; [|split].
  - apply (proj1 (proj2 (take_needs_both_triggers Z.sub Z.ltb
                           (snapshot 1 255 0) (app (start quiet))))).
    right. simpl. lia.
  - apply (proj2 (proj2 (take_needs_both_triggers Z.sub Z.ltb
                           (snapshot 1 255 0) (app (start quiet))))
             (__xinput (start quiet)) (reading 1 255 0)
             XInput.KeyLeftTrigger eq_refl eq_refl eq_refl).
    + simpl. lia.
    + left. simpl. repeat split; lia.
  - apply (proj1 (take_needs_both_triggers Z.sub Z.ltb
                    (snapshot 1 255 255) (app (start quiet)))).
    unfold captured. vm_compute.
    apply list_elem_of_further, list_elem_of_here.
Defined.



(** * More about XInput *)

Section MoreXInputFacts.

Context {W : Type}.
Implicit Types (self : XInput.XInput W) (s : XInput.MappedStates)
  (cbs : list (XInput.callback W)) (w : W).

Lemma foldl_register_callback self cbs :
  XInput.__registered_callbacks (foldl XInput.register_callback self cbs)
  = XInput.__registered_callbacks self ++ cbs
  ∧ XInput.__event_queue (foldl XInput.register_callback self cbs)
    = XInput.__event_queue self
  ∧ XInput.__prev_states (foldl XInput.register_callback self cbs)
    = XInput.__prev_states self.
Proof.
  revert self. induction cbs as [|cb cbs IH]; intros self; simpl.
  - by rewrite app_nil_r.
  - destruct (IH (XInput.register_callback self cb)) as (-> & -> & ->).
    simpl. by rewrite <- app_assoc.
Qed.

(** X1: [XInput.__init__] keeps the callbacks it is given in the order given,
    starts with an empty queue and with the default snapshot (packet
    number 0, triggers at 0) as the stored one. *)
Theorem init_registers_in_order cbs :
  XInput.__registered_callbacks (XInput.init cbs) = cbs
  ∧ XInput.__event_queue (XInput.init cbs) = []
  ∧ XInput.__prev_states (XInput.init cbs) = XInput.MappedStates_default.
Proof. unfold XInput.init. by destruct (foldl_register_callback
  {| XInput.__prev_states := XInput.MappedStates_default;
     XInput.__event_queue := [];
     XInput.__registered_callbacks := [] |} cbs) as (-> & -> & ->). Qed.

End MoreXInputFacts.

Lemma button_testbit (buttons : Z) (n : Z) :
  0 ≤ n → XInput.button buttons (2 ^ n) = Z.testbit buttons n.
Proof.
  intros Hn. unfold XInput.button.
  destruct (Z.testbit buttons n) eqn:Hbit.
  - destruct (Z.eqb_spec (Z.land buttons (2 ^ n)) 0) as [Hzero|]; [|done].
    apply (f_equal (λ z, Z.testbit z n)) in Hzero.
    rewrite Z.land_spec, Hbit, Z.pow2_bits_true, Z.bits_0 in Hzero by done.
    done.
  - destruct (Z.eqb_spec (Z.land buttons (2 ^ n)) 0) as [|Hnz]; [done|].
    exfalso. apply Hnz. apply Z.bits_inj'. intros m Hm.
    rewrite Z.land_spec, Z.bits_0.
    destruct (decide (n = m)) as [<-|Hne]; [by rewrite Hbit|].
    rewrite Z.pow2_bits_false by done. apply andb_false_r.
Qed.

(** X2: [read_raw_states] hands the packet number and the analog values over
    unchanged and reads each button flag from its own bit of [wButtons]:
    bits 0 to 9 and 12 to 15; bits 10 and 11 belong to no flag. *)
Theorem read_raw_states_bits (raw : XInput.XINPUT_STATE) :
  let s := XInput.read_raw_states raw in
  let b := XInput.wButtons (XInput.Gamepad raw) in
  XInput.PacketNumber s = XInput.dwPacketNumber raw
  ∧ XInput.LeftTrigger s = XInput.bLeftTrigger (XInput.Gamepad raw)
  ∧ XInput.RightTrigger s = XInput.bRightTrigger (XInput.Gamepad raw)
  ∧ XInput.DpadUp s = Z.testbit b 0
  ∧ XInput.DpadDown s = Z.testbit b 1
  ∧ XInput.DpadLeft s = Z.testbit b 2
  ∧ XInput.DpadRight s = Z.testbit b 3
  ∧ XInput.Start s = Z.testbit b 4
  ∧ XInput.Back s = Z.testbit b 5
  ∧ XInput.LeftThumb s = Z.testbit b 6
  ∧ XInput.RightThumb s = Z.testbit b 7
  ∧ XInput.LeftShoulder s = Z.testbit b 8
  ∧ XInput.RightShoulder s = Z.testbit b 9
  ∧ XInput.A s = Z.testbit b 12
  ∧ XInput.B s = Z.testbit b 13
  ∧ XInput.X s = Z.testbit b 14
  ∧ XInput.Y s = Z.testbit b 15.
Proof.
  intros s b. subst s b. simpl.
  repeat split; try reflexivity.
  - apply (button_testbit _ 0); lia.
  - apply (button_testbit _ 1); lia.
  - apply (button_testbit _ 2); lia.
  - apply (button_testbit _ 3); lia.
  - apply (button_testbit _ 4); lia.
  - apply (button_testbit _ 5); lia.
  - apply (button_testbit _ 6); lia.
  - apply (button_testbit _ 7); lia.
  - apply (button_testbit _ 8); lia.
  - apply (button_testbit _ 9); lia.
  - apply (button_testbit _ 12); lia.
  - apply (button_testbit _ 13); lia.
  - apply (button_testbit _ 14); lia.
  - apply (button_testbit _ 15); lia.
Qed.

(** X3: [Event.__eq__] is reflexive, and between two events without a wildcard
    it is plain equality; with wildcards it is not transitive, so it is no
    equivalence. *)
Theorem event_matching_concrete :
  (∀ e : XInput.Event, XInput.Event_eq e e = true)
  ∧ (∀ a b : XInput.Event,
       concrete a → concrete b → (XInput.Event_eq a b = true ↔ a = b))
  ∧ ¬ (∀ a b c : XInput.Event,
         XInput.Event_eq a b = true → XInput.Event_eq b c = true →
         XInput.Event_eq a c = true).
Proof.
  split; [|split].
  - intros [t k]. by destruct t, k.
  - intros [ta ka] [tb kb] [Hta Hka] [Htb Hkb]. simpl in *.
    destruct ta, tb, ka, kb; try done; split; intros H; try done;
      discriminate H.
  - intros Htrans.
    specialize (Htrans (press_of XInput.KeyLeftTrigger)
                  {| XInput.type := XInput.any; XInput.key := XInput.KeyAny |}
                  (release_of XInput.KeyRightTrigger) eq_refl eq_refl).
    discriminate Htrans.
Qed.

Lemma translate_stale (previous current : XInput.MappedStates) :
  XInput.PacketNumber previous = XInput.PacketNumber current →
  translate previous current = [].
Proof.
  intros Heq. unfold translate.
  by rewrite update_states_same_packet.
Qed.

Lemma translate_length (previous current : XInput.MappedStates) :
  (length (translate previous current) ≤ 2)%nat.
Proof.
  destruct (decide (XInput.PacketNumber previous
                    = XInput.PacketNumber current)) as [Heq|Hne].
  - rewrite translate_stale by done. simpl. lia.
  - rewrite translate_as_specified by done.
    unfold axis_events_as_specified.
    repeat case_decide; simpl; lia.
Qed.

(** X4: Every event [__update_states] queues is owed to an edge: the packet
    number changed, the event names one trigger and is a press or a
    release, a press means that trigger is now at 255 and was not before,
    a release means it is now at 0 and was not before.  One call queues at
    most two events. *)
Theorem translate_sound (previous current : XInput.MappedStates) :
  (length (translate previous current) ≤ 2)%nat
  ∧ ∀ e : XInput.Event,
      e ∈ translate previous current →
      XInput.PacketNumber previous ≠ XInput.PacketNumber current
      ∧ concrete e
      ∧ ((e = press_of XInput.KeyLeftTrigger
          ∧ XInput.LeftTrigger current = 255
          ∧ XInput.LeftTrigger previous ≠ 255)
         ∨ (e = release_of XInput.KeyLeftTrigger
            ∧ XInput.LeftTrigger current = 0
            ∧ XInput.LeftTrigger previous ≠ 0)
         ∨ (e = press_of XInput.KeyRightTrigger
            ∧ XInput.RightTrigger current = 255
            ∧ XInput.RightTrigger previous ≠ 255)
         ∨ (e = release_of XInput.KeyRightTrigger
            ∧ XInput.RightTrigger current = 0
            ∧ XInput.RightTrigger previous ≠ 0)).
Proof.
  split; [apply translate_length|].
  intros e He.
  destruct (decide (XInput.PacketNumber previous
                    = XInput.PacketNumber current)) as [Heq|Hne].
  { rewrite translate_stale in He by done. by apply elem_of_nil in He. }
  split; [done|].
  rewrite translate_as_specified in He by done.
  unfold axis_events_as_specified in He.
  apply elem_of_app in He as [He|He];
    repeat case_decide;
    try (by apply elem_of_nil in He);
    apply list_elem_of_singleton in He as ->;
    (split; [split; discriminate|]).
  - left. repeat split; first [done | lia].
  - right; left. repeat split; first [done | lia].
  - right; right; left. repeat split; first [done | lia].
  - right; right; right. repeat split; first [done | lia].
Qed.

Section DispatchShape.

Context {W : Type}.
Implicit Types (self : XInput.XInput W) (s : XInput.MappedStates)
  (cbs : list (XInput.callback W)) (w : W).

(** X5: [__update_states] only adds to the end of the queue, at most two
    events, and leaves the registered callbacks alone. *)
Theorem update_states_appends self s :
  XInput.__event_queue self
    `prefix_of` XInput.__event_queue (XInput.__update_states self s)
  ∧ (length (XInput.__event_queue (XInput.__update_states self s))
     ≤ length (XInput.__event_queue self) + 2)%nat
  ∧ XInput.__registered_callbacks (XInput.__update_states self s)
    = XInput.__registered_callbacks self.
Proof.
  rewrite update_states_queue, update_states_callbacks, length_app.
  pose proof (translate_length (XInput.__prev_states self) s).
  split; [by eexists|]. split; [lia|done].
Qed.

Lemma matching_cons (cb : XInput.callback W) cbs (e : XInput.Event) :
  matching (cb :: cbs) e
  = if XInput.Event_eq cb.1 e then cb :: matching cbs e else matching cbs e.
Proof.
  unfold matching. rewrite filter_cons.
  destruct (XInput.Event_eq cb.1 e); by case_decide.
Qed.

(** One event: the calls are that event, once per handler invoked; a
    handler is invoked for each matching callback in turn until one
    raises. *)
Lemma run_callbacks_shape cbs (e : XInput.Event) s w :
  ∃ n : nat,
    (XInput.run_callbacks cbs e s w).2 = replicate n e
    ∧ (n ≤ length (matching cbs e))%nat
    ∧ ((XInput.run_callbacks cbs e s w).1.1 = Returned →
       n = length (matching cbs e))
    ∧ ((XInput.run_callbacks cbs e s w).1.1 = Raised → (1 ≤ n)%nat).
Proof.
  revert w. induction cbs as [|cb cbs IH]; intros w; simpl.
  { exists 0%nat. split; [done|]. split; [done|]. split; done. }
  rewrite matching_cons.
  destruct (XInput.Event_eq cb.1 e); [|apply IH].
  destruct (cb.2 s w) as [[] w'].
  - destruct (IH w') as (n & Hcalls & Hle & Hret & Hraise).
    destruct (XInput.run_callbacks cbs e s w') as [[o w''] calls].
    simpl in *. exists (S n). rewrite Hcalls. simpl.
    split; [done|]. split; [lia|]. split; [|lia].
    intros Ho. by rewrite Hret.
  - exists 1%nat. simpl. split; [done|]. split; [lia|]. split; [done|lia].
Qed.


Lemma matching_nonempty cbs (e : XInput.Event) :
  (1 ≤ length (matching cbs e))%nat →
  ∃ cb : XInput.callback W, cb ∈ cbs ∧ XInput.Event_eq cb.1 e = true.
Proof.
  unfold matching. intros Hlen.
  destruct (filter _ cbs) as [|cb l] eqn:Hf; [simpl in Hlen; lia|].
  assert (cb ∈ filter (λ cb : XInput.callback W,
                         XInput.Event_eq cb.1 e = true) cbs) as Hin
    by (rewrite Hf; apply list_elem_of_here).
  apply list_elem_of_filter in Hin as [Hmatch Hin]. by exists cb.
Qed.


Lemma drain_shape cbs s (queue : list XInput.Event) w :
  (XInput.drain cbs s queue w).1.1.2 `suffix_of` queue
  ∧ (∀ e, e ∈ (XInput.drain cbs s queue w).2 →
          e ∈ queue ∧ ∃ cb : XInput.callback W, cb ∈ cbs ∧ XInput.Event_eq cb.1 e = true)
  ∧ ((XInput.drain cbs s queue w).1.1.1 = Raised →
     ∃ done e calls,
       queue = done ++ e :: (XInput.drain cbs s queue w).1.1.2
       ∧ (XInput.drain cbs s queue w).2 = calls ++ [e]).
Proof.
  revert w. induction queue as [|e rest IH]; intros w; simpl.
  { split; [done|]. split; [|done]. intros e He. by apply elem_of_nil in He. }
  destruct (run_callbacks_shape cbs e s w)
    as (n & Hcalls & Hle & _ & Hraise).
  assert (∀ e', e' ∈ replicate n e →
                e' ∈ e :: rest
                ∧ ∃ cb : XInput.callback W, cb ∈ cbs ∧ XInput.Event_eq cb.1 e' = true) as Hhead.
  { intros e' He'. apply elem_of_replicate in He' as [-> Hn].
    split; [apply list_elem_of_here|].
    apply matching_nonempty. lia. }
  destruct (XInput.run_callbacks cbs e s w) as [[[] w'] calls];
    simpl in *; subst calls.
  - destruct (IH w') as (Hsuffix & Hin & Hraised).
    destruct (XInput.drain cbs s rest w') as [[[o q] w''] calls'].
    simpl in *. split; [by apply suffix_cons_r|]. split.
    + intros e' He'. apply elem_of_app in He' as [He'|He']; [by apply Hhead|].
      destruct (Hin e' He') as [Hq Hcb]. split; [|done].
      by apply list_elem_of_further.
    + intros Ho. destruct (Hraised Ho) as (done & e' & calls & -> & ->).
      exists (e :: done), e', (replicate n e ++ calls).
      split; [done|]. by rewrite <- app_assoc.
  - split; [by apply suffix_cons_r|]. split; [exact Hhead|].
    intros _. exists [], e. destruct n as [|n]; [specialize (Hraise eq_refl); lia|].
    exists (replicate n e). split; [done|].
    by rewrite <- replicate_S_end.
Qed.


(** X7: [__handle_events] only takes events from the front of the queue, and
    every event it hands to a handler was queued and matches the pattern of
    a registered callback. *)
Theorem dispatch_calls_justified self w :
  let '(o, self', w', calls) := XInput.__handle_events self w in
  XInput.__event_queue self' `suffix_of` XInput.__event_queue self
  ∧ ∀ e, e ∈ calls →
         e ∈ XInput.__event_queue self
         ∧ ∃ cb : XInput.callback W, cb ∈ XInput.__registered_callbacks self
                 ∧ XInput.Event_eq cb.1 e = true.
Proof.
  unfold XInput.__handle_events.
  destruct (drain_shape (XInput.__registered_callbacks self)
              (XInput.__prev_states self) (XInput.__event_queue self) w)
    as (Hsuffix & Hin & _).
  by destruct (XInput.drain _ _ _ w) as [[[o q] w'] calls].
Qed.

(** X8: When a handler raises, [__handle_events] stops there: the event being
    handled is the last one handed out, it is gone from the queue together
    with the events before it, and the events after it stay queued in
    order. *)
Theorem dispatch_raise_keeps_rest self w :
  let '(o, self', w', calls) := XInput.__handle_events self w in
  o = Raised →
  ∃ done e calls',
    XInput.__event_queue self = done ++ e :: XInput.__event_queue self'
    ∧ calls = calls' ++ [e].
Proof.
  unfold XInput.__handle_events.
  destruct (drain_shape (XInput.__registered_callbacks self)
              (XInput.__prev_states self) (XInput.__event_queue self) w)
    as (_ & _ & Hraised).
  by destruct (XInput.drain _ _ _ w) as [[[o q] w'] calls].
Qed.

(** X9: [update] with nothing queued and no news from the driver (an error
    code, or the packet number already stored) changes nothing and runs no
    handler. *)
Theorem update_without_news self (answer : Z * XInput.XINPUT_STATE) w :
  XInput.__event_queue self = [] →
  answer.1 ≠ 0
  ∨ XInput.dwPacketNumber answer.2
    = XInput.PacketNumber (XInput.__prev_states self) →
  XInput.update self answer w = (Returned, self, w, []).
Proof.
  intros Hq Hnews. unfold XInput.update, XInput.poll.
  assert (match (if answer.1 =? 0
                 then Some (XInput.read_raw_states answer.2) else None) with
          | Some new_states => XInput.__update_states self new_states
          | None => self
          end = self) as ->.
  { destruct (Z.eqb_spec answer.1 0) as [Hzero|]; [|done].
    destruct Hnews as [|Hsame]; [done|].
    by apply update_states_same_packet. }
  unfold XInput.__handle_events. rewrite Hq. simpl.
  destruct self. simpl in *. by subst.
Qed.

End DispatchShape.

(** * More about the guarded helpers *)

Section MoreDequeFacts.

Context {T : Type} `{EqDecision T}.
Implicit Types (dq : Deque.deque T) (l : list T) (x : T)
  (predicate : T → bool).
Local Open Scope nat_scope.

(** The scan found [x]: everything before it is accepted, [x] is rejected,
    and removing [x] takes it out at that place. *)
Lemma first_rejected_split predicate l x :
  Deque.first_rejected predicate l = Some x →
  ∃ l1 l2,
    l = l1 ++ x :: l2
    ∧ Forall (λ y, predicate y = true) l1
    ∧ predicate x = false
    ∧ Deque.remove_first x l = Some (l1 ++ l2).
Proof.
  induction l as [|y l IH]; [done|]. simpl.
  destruct (predicate y) eqn:Hy; simpl.
  - intros Hx. destruct (IH Hx) as (l1 & l2 & -> & Hl1 & Hrej & Hrem).
    exists (y :: l1), l2. split; [done|]. split; [by constructor|].
    split; [done|].
    rewrite decide_False by (intros ->; congruence).
    by rewrite Hrem.
  - intros [= ->]. exists [], l. rewrite decide_True by done.
    by repeat split.
Qed.

Lemma first_rejected_ext predicate (q : T → bool) l :
  (∀ y, predicate y = q y) →
  Deque.first_rejected predicate l = Deque.first_rejected q l.
Proof.
  intros Hext. induction l as [|y l IH]; [done|]. simpl.
  by rewrite Hext, IH.
Qed.

Lemma deque_append_with_predicate_ext dq x predicate (q : T → bool) :
  (∀ y, predicate y = q y) →
  Deque.deque_append_with_predicate dq x predicate
  = Deque.deque_append_with_predicate dq x q.
Proof.
  intros Hext. unfold Deque.deque_append_with_predicate.
  by rewrite (first_rejected_ext predicate q).
Qed.

Lemma deque_extend_with_predicate_ext dq l predicate (q : T → bool) :
  (∀ y, predicate y = q y) →
  Deque.deque_extend_with_predicate dq l predicate
  = Deque.deque_extend_with_predicate dq l q.
Proof.
  intros Hext. revert dq. induction l as [|x l IH]; intros dq; [done|].
  simpl. rewrite (deque_append_with_predicate_ext dq x predicate q) by done.
  destruct (Deque.deque_append_with_predicate dq x q); [apply IH|done].
Qed.

Lemma filter_accepted predicate l :
  Forall (λ y, predicate y = true) l →
  filter (λ y, predicate y = true) l = l.
Proof.
  induction 1 as [|y l Hy _ IH]; [done|].
  rewrite filter_cons, decide_True by done. by rewrite IH.
Qed.

(** What one guarded append does to a deque within its bound. *)
Lemma guarded_append_shape dq x predicate :
  Deque.len dq ≤ Deque.maxlen dq →
  ∃ dq',
    Deque.deque_append_with_predicate dq x predicate = Some dq'
    ∧ Deque.maxlen dq' = Deque.maxlen dq
    ∧ Deque.len dq' ≤ Deque.maxlen dq
    ∧ Deque.items dq' `sublist_of` Deque.items dq ++ [x]
    ∧ filter (λ y, predicate y = true) (Deque.items dq)
        `prefix_of` filter (λ y, predicate y = true) (Deque.items dq').
Proof.
  intros Hle. unfold Deque.deque_append_with_predicate.
  destruct (Nat.eqb_spec (Deque.len dq) (Deque.maxlen dq)) as [Hfull|Hroom].
  - destruct (Deque.first_rejected predicate (Deque.items dq)) as [object|]
      eqn:Hscan.
    + destruct (first_rejected_split _ _ _ Hscan)
        as (l1 & l2 & Hitems & Hl1 & Hrej & Hrem).
      unfold Deque.remove. rewrite Hrem. simpl.
      rewrite append_room; simpl.
      2:{ unfold Deque.len in *. simpl. rewrite Hitems in Hfull.
          rewrite !length_app in *. simpl in *. lia. }
      eexists; split; [done|]. simpl. split; [done|].
      rewrite Hitems. unfold Deque.len in *. simpl.
      rewrite Hitems in Hfull. rewrite !length_app in *. simpl in *.
      split; [lia|]. split.
      * rewrite <- !app_assoc. apply sublist_app; [done|].
        simpl. by apply sublist_cons.
      * rewrite !filter_app, filter_cons, decide_False by congruence.
        by eexists.
    + eexists; split; [done|]. split; [done|]. split; [done|].
      split; [by apply sublist_inserts_r|done].
  - rewrite append_room by lia. eexists; split; [done|]. simpl.
    split; [done|]. unfold Deque.len in *. simpl. rewrite length_app. simpl.
    split; [lia|]. split; [done|].
    rewrite filter_app. by eexists.
Qed.

Lemma guarded_extend_shape dq l predicate :
  Deque.len dq ≤ Deque.maxlen dq →
  ∃ dq',
    Deque.deque_extend_with_predicate dq l predicate = Some dq'
    ∧ Deque.maxlen dq' = Deque.maxlen dq
    ∧ Deque.len dq' ≤ Deque.maxlen dq
    ∧ Deque.items dq' `sublist_of` Deque.items dq ++ l
    ∧ filter (λ y, predicate y = true) (Deque.items dq)
        `prefix_of` filter (λ y, predicate y = true) (Deque.items dq').
Proof.
  revert dq. induction l as [|x l IH]; intros dq Hle; simpl.
  { eexists; split; [done|].
    split; [done|]. split; [done|]. by rewrite app_nil_r. }
  destruct (guarded_append_shape dq x predicate Hle)
    as (dq1 & -> & Hmax1 & Hlen1 & Hsub1 & Hpre1).
  destruct (IH dq1) as (dq2 & -> & Hmax2 & Hlen2 & Hsub2 & Hpre2);
    [by rewrite Hmax1|].
  eexists; split; [done|]. split; [congruence|]. split; [congruence|].
  split.
  - etrans; [exact Hsub2|].
    replace (Deque.items dq ++ x :: l) with ((Deque.items dq ++ [x]) ++ l)
      by (by rewrite <- app_assoc).
    by apply sublist_app.
  - by etrans.
Qed.

Lemma guarded_append_unpinned dq x predicate :
  Deque.len dq ≤ Deque.maxlen dq →
  Forall (λ y, predicate y = false) (Deque.items dq) →
  Deque.deque_append_with_predicate dq x predicate = Some (Deque.append dq x).
Proof.
  intros Hle Hnone. unfold Deque.deque_append_with_predicate.
  destruct (Nat.eqb_spec (Deque.len dq) (Deque.maxlen dq)) as [Hfull|Hroom];
    [|done].
  destruct dq as [[|y l] m]; unfold Deque.len in *; simpl in *.
  - subst m. done.
  - apply Forall_cons in Hnone as [Hy _]. rewrite Hy. simpl.
    unfold Deque.remove. simpl. rewrite decide_True by done. simpl.
    unfold Deque.append. simpl. rewrite !length_app. simpl.
    destruct (Nat.ltb_spec m (length l + 1)); [lia|].
    destruct (Nat.ltb_spec m (S (length l + 1))); [|lia].
    by rewrite drop_0.
Qed.

(** X10: With nothing pinned the guarded append is the plain [deque.append] it
    replaced: the new item goes in at the right and, at the bound, the
    leftmost item goes out. *)
Theorem guarded_append_nothing_pinned dq x predicate :
  Deque.len dq ≤ Deque.maxlen dq →
  Forall (λ y, predicate y = false) (Deque.items dq) →
  Deque.deque_append_with_predicate dq x predicate = Some (Deque.append dq x).
Proof. apply guarded_append_unpinned. Qed.

(** X11: With nothing pinned, [deque_extend_with_predicate] keeps the last
    [maxlen] items of the old items followed by the new ones, in order:
    the oldest go first. *)
Theorem guarded_extend_nothing_pinned dq l predicate :
  Deque.len dq ≤ Deque.maxlen dq →
  (∀ y, predicate y = false) →
  Deque.deque_extend_with_predicate dq l predicate
  = Some {| Deque.items :=
              drop (length (Deque.items dq ++ l) - Deque.maxlen dq)
                   (Deque.items dq ++ l);
            Deque.maxlen := Deque.maxlen dq |}.
Proof.
  intros Hle Hnone.
  assert (Deque.deque_extend_with_predicate dq l predicate
          = Some (foldl Deque.append dq l)) as ->.
  { revert dq Hle. induction l as [|x l IH]; intros dq Hle; simpl; [done|].
    rewrite guarded_append_unpinned;
      [|done|by apply Forall_forall].
    apply IH. apply (append_len dq x Hle). }
  f_equal. rewrite <- (foldl_append_items dq l Hle).
  rewrite <- (foldl_append_maxlen dq l).
  by destruct (foldl Deque.append dq l).
Qed.

(** X12: While there is room for all of them, [deque_extend_with_predicate]
    appends the new items and evicts nothing, pinned or not. *)
Theorem guarded_extend_room dq l predicate :
  Deque.len dq + length l ≤ Deque.maxlen dq →
  Deque.deque_extend_with_predicate dq l predicate
  = Some {| Deque.items := Deque.items dq ++ l;
            Deque.maxlen := Deque.maxlen dq |}.
Proof.
  revert dq. induction l as [|x l IH]; intros dq Hroom; simpl in *.
  - rewrite app_nil_r. by destruct dq.
  - unfold Deque.deque_append_with_predicate.
    destruct (Nat.eqb_spec (Deque.len dq) (Deque.maxlen dq)); [lia|].
    rewrite append_room by lia. rewrite IH; simpl.
    + by rewrite <- app_assoc.
    + unfold Deque.len in *. simpl. rewrite length_app. simpl. lia.
Qed.

(** X13: [deque_extend_with_predicate] on a deque within its bound never
    raises, never exceeds the bound, never reorders, repeats or invents
    items (what is left is a sublist of the old items followed by the new
    ones), and never evicts an item the predicate accepts: the pinned items
    of before are still there, in order, ahead of any new pinned one. *)
Theorem guarded_extend_keeps_pinned dq l predicate :
  Deque.len dq ≤ Deque.maxlen dq →
  ∃ dq',
    Deque.deque_extend_with_predicate dq l predicate = Some dq'
    ∧ Deque.maxlen dq' = Deque.maxlen dq
    ∧ Deque.len dq' ≤ Deque.maxlen dq
    ∧ Deque.items dq' `sublist_of` Deque.items dq ++ l
    ∧ filter (λ y, predicate y = true) (Deque.items dq)
        `prefix_of` filter (λ y, predicate y = true) (Deque.items dq').
Proof. apply guarded_extend_shape. Qed.

(** [deque.remove]: a value that is not in the list raises (here [None]);
    otherwise exactly its first occurrence goes and the rest keeps its
    order. *)
Lemma remove_first_spec x l :
  (x ∉ l → Deque.remove_first x l = None)
  ∧ (x ∈ l →
     ∃ l1 l2,
       l = l1 ++ x :: l2 ∧ (x ∉ l1)
       ∧ Deque.remove_first x l = Some (l1 ++ l2)).
Proof.
  induction l as [|y l [IHnone IHsome]]; simpl.
  { split; [done|]. intros Hin. by apply elem_of_nil in Hin. }
  destruct (decide (y = x)) as [->|Hne].
  - split; [intros Hnot; exfalso; apply Hnot, list_elem_of_here|].
    intros _. exists [], l. split; [done|]. split; [apply not_elem_of_nil|done].
  - split.
    + intros Hnot. rewrite IHnone; [done|].
      intros Hin. apply Hnot. by apply list_elem_of_further.
    + intros Hin. apply elem_of_cons in Hin as [->|Hin]; [done|].
      destruct (IHsome Hin) as (l1 & l2 & -> & Hl1 & ->).
      exists (y :: l1), l2. split; [done|]. split; [|done].
      intros Hy. apply elem_of_cons in Hy as [->|Hy]; done.
Qed.

End MoreDequeFacts.

(** * More about the history commands *)

Section MoreHistoryFacts.

Context {time : Type}.
Implicit Types (self : App time) (dq : Deque.deque ref)
  (h : list ImageComposite).
Local Open Scope nat_scope.

(** Composites that are not pinned, added at the end of the heap, change
    the pinned flag of no reference. *)
Lemma pinnation_get_app h (more : list ImageComposite) (image : ref) :
  Forall (λ composite, pinnation composite = false) more →
  pinnation_get (h ++ more) image = pinnation_get h image.
Proof.
  intros Hmore. unfold pinnation_get, ref in *.
  destruct (decide (image < length h)) as [Hlt|Hge].
  - by rewrite lookup_app_l.
  - rewrite lookup_app_r by lia.
    rewrite (lookup_ge_None_2 h image) by lia.
    destruct (more !! (image - length h)) as [composite|] eqn:Hl; [|done].
    eapply Forall_lookup_1 in Hmore; [|exact Hl]. done.
Qed.

Lemma new_fits (l : list ref) (n : nat) :
  length l ≤ n → Deque.new l n = {| Deque.items := l; Deque.maxlen := n |}.
Proof.
  intros Hfits. destruct (new_items l n) as [Hitems Hmax].
  destruct (Deque.new l n) as [l' n']. simpl in *. subst.
  replace (length l - n) with 0 by lia. done.
Qed.

(** X14: [add_image] on a history within its bound never raises.  It creates
    one composite, not pinned, under a new reference; the history stays
    within the bound, is a sublist of the old one followed by the new
    reference, and still holds every image that was pinned; while there is
    room the new reference is simply appended. *)
Theorem add_image_spec (name : string) self :
  Deque.len (_images self) ≤ Deque.maxlen (_images self) →
  let result := add_image name self in
  result.1 = Some ()
  ∧ heap result.2 = heap self ++ [{| filename := name; pinnation := false |}]
  ∧ Deque.maxlen (_images result.2) = Deque.maxlen (_images self)
  ∧ Deque.len (_images result.2) ≤ Deque.maxlen (_images self)
  ∧ Deque.items (_images result.2)
      `sublist_of` Deque.items (_images self) ++ [length (heap self)]
  ∧ (∀ image : ref,
       image ∈ Deque.items (_images self) →
       pinnation_get (heap self) image = true →
       image ∈ Deque.items (_images result.2)
       ∧ pinnation_get (heap result.2) image = true)
  ∧ (Deque.len (_images self) < Deque.maxlen (_images self) →
     Deque.items (_images result.2)
     = Deque.items (_images self) ++ [length (heap self)]).
Proof.
  intros Hle result. subst result.
  unfold add_image, mbind, M_bind, ImageComposite_init, get, modify, raise.
  cbn [set_heap heap _images fst snd].
  set (h' := heap self ++ [{| filename := name; pinnation := false |}]).
  assert (∀ image, pinnation_get h' image = pinnation_get (heap self) image)
    as Hpin.
  { intros image. apply pinnation_get_app. by repeat constructor. }
  destruct (guarded_append_shape (_images self) (length (heap self))
              (pinnation_get h') Hle)
    as (dq' & Hdq' & Hmax & Hlen & Hsub & Hpre).
  assert (Deque.len (_images self) < Deque.maxlen (_images self) →
          Deque.items dq' = Deque.items (_images self) ++ [length (heap self)])
    as Hroom.
  { intros Hlt. revert Hdq'. unfold Deque.deque_append_with_predicate.
    destruct (Nat.eqb_spec (Deque.len (_images self))
                (Deque.maxlen (_images self))); [lia|].
    rewrite append_room by done. by intros [= <-]. }
  rewrite Hdq'. simpl.
  split; [done|]. split; [done|]. split; [done|]. split; [done|].
  split; [done|]. split; [|done].
  intros image Hin Himage. split; [|by rewrite Hpin].
  assert (image ∈ filter (λ y : ref, pinnation_get h' y = true)
                         (Deque.items dq')) as Hkept.
  { eapply elem_of_prefix; [|exact Hpre].
    apply list_elem_of_filter. by rewrite Hpin. }
  by apply list_elem_of_filter in Hkept as [_ Hkept].
Qed.

(** X15: [add_images] is [add_image] for each name in turn: creating all the
    composites up front, as the model of [add_images] does, or one by one
    as the generator does, ends in the same state with the same result. *)
Theorem add_images_one_by_one (names : list string) self :
  add_images names self = add_images_lazily names self.
Proof.
  revert self. induction names as [|name rest IH]; intros self.
  { unfold add_images, mbind, M_bind, get, modify. simpl.
    rewrite app_nil_r. by destruct self. }
  simpl add_images_lazily. unfold M_bind at 1.
  unfold add_image, mbind, M_bind, ImageComposite_init, get, modify, raise.
  simpl.
  set (h1 := heap self ++ [{| filename := name; pinnation := false |}]).
  destruct (deque_append_with_predicate_returns (_images self)
              (length (heap self)) (pinnation_get h1))
    as (dq1 & Hdq1 & _).
  rewrite Hdq1. simpl.
  rewrite <- IH.
  unfold add_images, mbind, M_bind, get, modify, raise. simpl.
  unfold h1. rewrite length_app. simpl.
  replace (length (heap self) + 1) with (S (length (heap self))) by lia.
  rewrite <- app_assoc. simpl.
  set (h2 := heap self
             ++ {| filename := name; pinnation := false |}
                :: ((λ name0, {| filename := name0; pinnation := false |})
                    <$> rest)).
  rewrite (deque_append_with_predicate_ext (_images self) _
             (pinnation_get h2) (pinnation_get h1)).
  - rewrite Hdq1. subst h2. simpl. unfold fmap.
    match goal with
    | |- context [Deque.deque_extend_with_predicate dq1 ?l ?q] =>
        destruct (deque_extend_with_predicate_returns dq1 l q)
          as (dq2 & -> & _)
    end.
    reflexivity.
  - intros image. unfold h2, h1.
    replace (heap self
             ++ {| filename := name; pinnation := false |}
                :: ((λ name0, {| filename := name0; pinnation := false |})
                    <$> rest))
      with ((heap self ++ [{| filename := name; pinnation := false |}])
            ++ ((λ name0, {| filename := name0; pinnation := false |})
                <$> rest))
      by (by rewrite <- app_assoc).
    apply pinnation_get_app.
    apply Forall_fmap, Forall_true. done.
Qed.

(** X16: [_command_view_remove_all] on a history within its limit keeps exactly
    the pinned images, in their order, and nothing else changes; doing it
    again changes nothing. *)
Theorem remove_all_keeps_pinned self :
  history_within_limit self →
  let cleared := _command_view_remove_all self in
  Deque.items (_images cleared)
  = filter (λ image, pinnation_get (heap self) image = true)
           (Deque.items (_images self))
  ∧ Forall (λ image, pinnation_get (heap cleared) image = true)
           (Deque.items (_images cleared))
  ∧ heap cleared = heap self
  ∧ _deque_collect_limit cleared = _deque_collect_limit self
  ∧ Deque.maxlen (_images cleared) = _deque_collect_limit self
  ∧ _command_view_remove_all cleared = cleared.
Proof.
  intros [Hlen Hmax] cleared.
  set (pinned := filter (λ image, pinnation_get (heap self) image = true)
                        (Deque.items (_images self))).
  assert (length pinned ≤ _deque_collect_limit self) as Hfits.
  { etrans; [|exact Hlen]. apply sublist_length, sublist_filter. }
  assert (cleared
          = set_images self {| Deque.items := pinned;
                               Deque.maxlen := _deque_collect_limit self |})
    as Hcleared.
  { unfold cleared, _command_view_remove_all, _reset_images.
    fold pinned. by rewrite new_fits. }
  rewrite Hcleared. simpl.
  assert (Forall (λ image, pinnation_get (heap self) image = true) pinned)
    as Hall.
  { apply Forall_forall. intros image Hin.
    by apply list_elem_of_filter in Hin as [Hpin _]. }
  split; [done|]. split; [done|]. split; [done|]. split; [done|].
  split; [done|].
  unfold _command_view_remove_all, _reset_images. simpl.
  rewrite (filter_accepted (pinnation_get (heap self)) pinned Hall).
  by rewrite new_fits.
Qed.

(** X17: [_remove_collected_image]: for an image that is not in the history
    [deque.remove] raises and nothing changes; otherwise exactly the first
    occurrence of the image goes, the other images keep their order, and,
    the history holding no image twice, the image is gone. *)
Theorem remove_collected_image_spec (image : ref) self :
  let result := _remove_collected_image image self in
  (image ∉ Deque.items (_images self) →
   result.1 = None ∧ result.2 = self)
  ∧ (image ∈ Deque.items (_images self) →
     result.1 = Some ()
     ∧ heap result.2 = heap self
     ∧ Deque.maxlen (_images result.2) = Deque.maxlen (_images self)
     ∧ ∃ l1 l2,
         Deque.items (_images self) = l1 ++ image :: l2
         ∧ (image ∉ l1)
         ∧ Deque.items (_images result.2) = l1 ++ l2
         ∧ (NoDup (Deque.items (_images self)) →
            image ∉ Deque.items (_images result.2))).
Proof.
  intros result. subst result.
  unfold _remove_collected_image, mbind, M_bind, get, modify, raise,
    Deque.remove. simpl.
  destruct (remove_first_spec image (Deque.items (_images self)))
    as [Hnone Hsome].
  split.
  - intros Hnot. by rewrite Hnone.
  - intros Hin. destruct (Hsome Hin) as (l1 & l2 & Hitems & Hl1 & ->).
    simpl. split; [done|]. split; [done|]. split; [done|].
    exists l1, l2. split; [done|]. split; [done|]. split; [done|].
    rewrite Hitems. intros Hnodup Hstill.
    apply NoDup_app in Hnodup as (_ & Hdisj & Hl2).
    apply NoDup_cons in Hl2 as [Hl2 _].
    apply elem_of_app in Hstill as [Hstill|Hstill]; [done|done].
Qed.

Lemma iter_rotate (n : nat) self :
  Nat.iter n _command_view_rotate self
  = set_images self
      {| Deque.items := Nat.iter n Deque.rotate_right1
                          (Deque.items (_images self));
         Deque.maxlen := Deque.maxlen (_images self) |}.
Proof.
  induction n as [|n IH]; simpl.
  - by destruct self as [[]].
  - by rewrite IH.
Qed.

(** X18: [_command_view_rotate] moves the last image to the front and
    [_command_view_rrotate] the first one to the end; each undoes the
    other, and rotating as many times as there are images gives the order
    back. *)
Theorem rotate_rrotate_inverse self :
  (∀ l x, Deque.items (_images self) = l ++ [x] →
          Deque.items (_images (_command_view_rotate self)) = x :: l)
  ∧ (∀ l x, Deque.items (_images self) = x :: l →
            Deque.items (_images (_command_view_rrotate self)) = l ++ [x])
  ∧ _command_view_rrotate (_command_view_rotate self) = self
  ∧ _command_view_rotate (_command_view_rrotate self) = self
  ∧ Nat.iter (length (Deque.items (_images self))) _command_view_rotate self
    = self.
Proof.
  split; [|split; [|split; [|split]]].
  - intros l x Hitems. simpl. rewrite Hitems.
    unfold Deque.rotate_right1. by rewrite reverse_snoc, reverse_involutive.
  - intros l x Hitems. simpl. by rewrite Hitems.
  - pose proof (rotate_back (_images self) 1) as Hback.
    change (Z.opp 1) with (Zneg 1) in Hback.
    unfold _command_view_rrotate, _command_view_rotate.
    cbn [_images set_images]. rewrite Hback. by destruct self.
  - pose proof (rotate_back (_images self) (-1)) as Hback.
    change (Z.opp (Zneg 1)) with (Zpos 1) in Hback.
    unfold _command_view_rrotate, _command_view_rotate.
    cbn [_images set_images]. rewrite Hback. by destruct self.
  - rewrite iter_rotate, iter_right_rotate.
    set (l := Deque.items (_images self)).
    assert (rotate (length l - length l mod length l) l = l) as ->.
    { destruct l as [|x l']; [done|].
      rewrite Nat.Div0.mod_same, Nat.sub_0_r.
      unfold rotate. rewrite Nat.Div0.mod_same. simpl. by rewrite app_nil_r. }
    subst l. by destruct self as [[]].
Qed.

End MoreHistoryFacts.

(** * More about the take handler *)

Section MoreTakeFacts.

Context {time : Type}.
Context (time_sub : time → time → time) (time_lt : time → time → bool).
Implicit Types (self : App time) (p : Program time)
  (states : XInput.MappedStates).
Local Open Scope nat_scope.

(** [add_image] always returns, and leaves clock position, effects and the
    time of the last capture alone. *)
Lemma add_image_returns (name : string) self :
  ∃ dq',
    add_image name self
    = (Some (),
       set_images
         (set_heap self
            (heap self ++ [{| filename := name; pinnation := false |}]))
         dq').
Proof.
  unfold add_image, mbind, M_bind, ImageComposite_init, get, modify, raise.
  cbn [set_heap heap _images fst snd].
  destruct (deque_append_with_predicate_returns (_images self)
              (length (heap self))
              (pinnation_get
                 (heap self ++ [{| filename := name; pinnation := false |}])))
    as (dq' & -> & _).
  by exists dq'.
Qed.

(** X19: The path of the take handler on which a screenshot is taken: both
    triggers at 255, the cooldown over, and no call to the outside
    raising.  The handler beeps, grabs the screen, copies the image if
    "Copy upon Take" is on, creates one composite named after the time
    stamp, and only then reads the clock for the time of the last
    capture. *)
Theorem take_captures states self :
  XInput.LeftTrigger states = 255%Z →
  XInput.RightTrigger states = 255%Z →
  time_lt (time_sub (now (oracle self (asked self))) (_xinput_last_time self))
          (_xinput_take_cooldown self) = false →
  raises (oracle self (S (asked self))) = false →
  raises (oracle self (S (S (asked self)))) = false →
  (_copy_upon_take self = true →
   raises (oracle self (S (S (S (asked self))))) = false) →
  let c := if _copy_upon_take self then 1 else 0 in
  let result :=
    _xinput_ltrt_command_action_take time_sub time_lt states self in
  result.1 = Some ()
  ∧ effects result.2
    = effects self ++ [MessageBeep; ImageGrab_grab]
      ++ (if _copy_upon_take self then [copy_image] else [])
  ∧ heap result.2
    = heap self
      ++ [{| filename := "PrtSc " +:+ stamp (oracle self (asked self + 3 + c));
             pinnation := false |}]
  ∧ _xinput_last_time result.2 = now (oracle self (asked self + 4 + c))
  ∧ asked result.2 = asked self + 5 + c
  ∧ captured self result.2.
Proof.
  intros Hl Hr Hcool Hbeep Hgrab Hcopy c result. subst c result.
  unfold captured.
  pose proof add_image_returns as Hadd.
  unfold _xinput_ltrt_command_action_take, _command_action_take, mbind,
    M_bind, time_, get, external, datetimenow, modify, mret, M_ret.
  set (add := add_image (time := time)) in *.
  simpl. rewrite Hcool, Hl, Hr. simpl. rewrite Hbeep, Hgrab.
  destruct (_copy_upon_take self) eqn:Hc; simpl.
  - rewrite (Hcopy eq_refl).
    match goal with
    | |- context [add ?name ?s] => destruct (Hadd name s) as (dq' & ->)
    end.
    simpl. rewrite <- !app_assoc, !app_nil_r. simpl.
    replace (asked self + 3 + 1) with (S (S (S (S (asked self))))) by lia.
    replace (asked self + 4 + 1) with (S (S (S (S (S (asked self)))))) by lia.
    replace (asked self + 5 + 1) with (S (S (S (S (S (S (asked self)))))))
      by lia.
    split; [done|]. split; [done|]. split; [done|]. split; [done|].
    split; [done|].
    rewrite drop_app_length. apply list_elem_of_further, list_elem_of_here.
  - match goal with
    | |- context [add ?name ?s] => destruct (Hadd name s) as (dq' & ->)
    end.
    simpl. rewrite <- !app_assoc, !app_nil_r. simpl.
    replace (asked self + 3 + 0) with (S (S (S (asked self)))) by lia.
    replace (asked self + 4 + 0) with (S (S (S (S (asked self))))) by lia.
    replace (asked self + 5 + 0) with (S (S (S (S (S (asked self)))))) by lia.
    split; [done|]. split; [done|]. split; [done|]. split; [done|].
    split; [done|].
    rewrite drop_app_length. apply list_elem_of_further, list_elem_of_here.
Qed.

(** X20: When the take handler raises (the beep, the screen grab or the copy to
    the clipboard failed), no composite was created, the history is as it
    was, and the time of the last capture is not set, so the cooldown does
    not start. *)
Theorem take_raise_changes_nothing states self :
  let result :=
    _xinput_ltrt_command_action_take time_sub time_lt states self in
  result.1 = None →
  _images result.2 = _images self
  ∧ heap result.2 = heap self
  ∧ _xinput_last_time result.2 = _xinput_last_time self
  ∧ XInput.LeftTrigger states = 255%Z
  ∧ XInput.RightTrigger states = 255%Z.
Proof.
  intros result. subst result.
  destruct (decide (XInput.LeftTrigger states = 255%Z)) as [Hl|Hl];
    [destruct (decide (XInput.RightTrigger states = 255%Z)) as [Hr|Hr]|];
    [|by rewrite take_idle by auto..].
  pose proof add_image_returns as Hadd.
  unfold _xinput_ltrt_command_action_take, _command_action_take, mbind,
    M_bind, time_, get, external, datetimenow, modify, mret, M_ret.
  set (add := add_image (time := time)) in *.
  simpl.
  destruct (time_lt _ _); [done|].
  destruct (_ || _); [done|]. simpl.
  destruct (raises (oracle self (S (asked self))));
    [by intros _; simpl; repeat split|].
  destruct (raises (oracle self (S (S (asked self)))));
    [by intros _; simpl; repeat split|].
  destruct (_copy_upon_take self); simpl.
  - destruct (raises (oracle self (S (S (S (asked self))))));
      [by intros _; simpl; repeat split|].
    match goal with
    | |- context [add ?name ?s] => destruct (Hadd name s) as (dq' & ->)
    end.
    done.
  - match goal with
    | |- context [add ?name ?s] => destruct (Hadd name s) as (dq' & ->)
    end.
    done.
Qed.

End MoreTakeFacts.

(** * What holds in every state the program reaches *)

Section SublistFacts.

Context {T : Type} `{EqDecision T}.
Implicit Types (dq : Deque.deque T) (l : list T) (x : T)
  (predicate : T → bool).

Lemma append_sublist dq x :
  Deque.items (Deque.append dq x) `sublist_of` Deque.items dq ++ [x].
Proof.
  unfold Deque.append. simpl.
  destruct (_ <? _)%nat; [apply sublist_drop|done].
Qed.

Lemma remove_first_sublist x l l' :
  Deque.remove_first x l = Some l' → l' `sublist_of` l.
Proof.
  revert l'. induction l as [|y l IH]; intros l'; simpl; [done|].
  destruct (decide (y = x)).
  - intros [= <-]. by apply sublist_cons.
  - destruct (Deque.remove_first x l) as [l''|]; [|done].
    intros [= <-]. apply sublist_skip. by apply IH.
Qed.

Lemma guarded_append_sublist dq x predicate dq' :
  Deque.deque_append_with_predicate dq x predicate = Some dq' →
  Deque.items dq' `sublist_of` Deque.items dq ++ [x].
Proof.
  unfold Deque.deque_append_with_predicate.
  destruct (_ =? _)%nat.
  - destruct (Deque.first_rejected predicate (Deque.items dq)) as [object|].
    + unfold Deque.remove.
      destruct (Deque.remove_first object (Deque.items dq)) as [l'|] eqn:Hrem;
        [|done].
      simpl. intros [= <-].
      etrans; [apply append_sublist|]. simpl.
      apply sublist_app; [|done]. by eapply remove_first_sublist.
    + intros [= <-]. by apply sublist_inserts_r.
  - intros [= <-]. apply append_sublist.
Qed.

Lemma guarded_extend_sublist dq l predicate dq' :
  Deque.deque_extend_with_predicate dq l predicate = Some dq' →
  Deque.items dq' `sublist_of` Deque.items dq ++ l.
Proof.
  revert dq. induction l as [|x l IH]; intros dq; simpl.
  - intros [= <-]. by rewrite app_nil_r.
  - destruct (Deque.deque_append_with_predicate dq x predicate) as [dq1|]
      eqn:Hdq1; [|done].
    intros Hdq'. etrans; [by apply IH|].
    replace (Deque.items dq ++ x :: l) with ((Deque.items dq ++ [x]) ++ l)
      by (by rewrite <- app_assoc).
    apply sublist_app; [|done]. by eapply guarded_append_sublist.
Qed.

Lemma rotate_perm dq (n : Z) :
  Deque.items (Deque.rotate dq n) ≡ₚ Deque.items dq.
Proof.
  rewrite rotate_items. unfold rotate.
  rewrite Permutation_app_comm. by rewrite take_drop.
Qed.

End SublistFacts.

Section SoundFacts.

Context {time : Type}.
Context (time_sub : time → time → time) (time_lt : time → time → bool).
Implicit Types (self : App time) (p : Program time) (b : bool).
Local Open Scope nat_scope.

(** New references are the next free ones: a sublist of the old history
    followed by them is well formed again. *)
Lemma wellformed_sublist (l l' : list ref) (n k : nat) :
  NoDup l → Forall (λ image : ref, image < n) l →
  l' `sublist_of` l ++ seq n k →
  NoDup l' ∧ Forall (λ image : ref, image < n + k) l'.
Proof.
  intros Hnodup Hbound Hsub.
  assert (NoDup (l ++ seq n k)) as Hall.
  { apply NoDup_app. split; [done|]. split; [|apply NoDup_seq].
    intros image Hin Hnew.
    eapply Forall_forall in Hbound; [|exact Hin].
    apply elem_of_seq in Hnew. lia. }
  split; [by eapply sublist_NoDup|].
  apply Forall_forall. intros image Hin.
  eapply elem_of_sublist in Hin; [|exact Hsub].
  apply elem_of_app in Hin as [Hin|Hin].
  - eapply Forall_forall in Hbound; [|exact Hin]. lia.
  - apply elem_of_seq in Hin. lia.
Qed.

Lemma frame_keeps {R} (m : M time R) b :
  (∀ self, _images (m self).2 = _images self
           ∧ heap (m self).2 = heap self
           ∧ _xinput_poll (m self).2 = _xinput_poll self) →
  keeps (app_sound b) m.
Proof.
  intros Hframe self [[Hnodup Hbound] Hpoll].
  destruct (Hframe self) as (Himages & Hheap & Hflag).
  unfold app_sound, history_wellformed. by rewrite Himages, Hheap, Hflag.
Qed.

Lemma bind_keeps_sound {R1 R2} (m : M time R1) (f : R1 → M time R2) b :
  keeps (app_sound b) m → (∀ r, keeps (app_sound b) (f r)) →
  keeps (app_sound b) (M_bind _ _ f m).
Proof.
  intros Hm Hf self Hself. unfold M_bind.
  specialize (Hm self Hself).
  destruct (m self) as [[r|] self']; [|done].
  by apply Hf.
Qed.

Lemma add_image_sound (name : string) b :
  keeps (app_sound b) (add_image (time := time) name).
Proof.
  intros self [[Hnodup Hbound] Hpoll].
  unfold add_image, mbind, M_bind, ImageComposite_init, get, modify, raise.
  cbn [set_heap heap _images fst snd].
  destruct (Deque.deque_append_with_predicate (_images self)
              (length (heap self)) _) as [dq'|] eqn:Hdq'.
  - apply guarded_append_sublist in Hdq'.
    destruct (wellformed_sublist _ _ (length (heap self)) 1 Hnodup Hbound Hdq')
      as [Hnodup' Hbound'].
    split; [|done]. split; simpl; [done|].
    by rewrite length_app.
  - split; [|done]. split; simpl; [done|].
    rewrite length_app. eapply Forall_impl; [exact Hbound|].
    simpl. intros; lia.
Qed.

Lemma add_images_sound (names : list string) b :
  keeps (app_sound b) (add_images (time := time) names).
Proof.
  intros self [[Hnodup Hbound] Hpoll].
  unfold add_images, mbind, M_bind, get, modify, raise.
  cbn [set_heap heap _images fst snd].
  destruct (Deque.deque_extend_with_predicate (_images self) _ _) as [dq'|]
    eqn:Hdq'.
  - apply guarded_extend_sublist in Hdq'.
    destruct (wellformed_sublist _ _ (length (heap self)) (length names)
                Hnodup Hbound Hdq') as [Hnodup' Hbound'].
    split; [|done]. split; simpl; [done|].
    by rewrite length_app, length_fmap.
  - split; [|done]. split; simpl; [done|].
    rewrite length_app. eapply Forall_impl; [exact Hbound|].
    simpl. intros; lia.
Qed.

Lemma _command_action_take_sound b :
  keeps (app_sound b) (_command_action_take (time := time)).
Proof.
  unfold _command_action_take.
  apply bind_keeps_sound; [by apply frame_keeps|]. intros _.
  apply bind_keeps_sound; [by apply frame_keeps|]. intros self.
  apply bind_keeps_sound.
  { destruct (_copy_upon_take self); by apply frame_keeps. }
  intros _. apply bind_keeps_sound; [by apply frame_keeps|]. intros name.
  apply add_image_sound.
Qed.

Lemma _xinput_ltrt_command_action_take_sound states b :
  keeps (app_sound b)
    (_xinput_ltrt_command_action_take time_sub time_lt states).
Proof.
  unfold _xinput_ltrt_command_action_take.
  apply bind_keeps_sound; [by apply frame_keeps|]. intros t.
  apply bind_keeps_sound; [by apply frame_keeps|]. intros self.
  destruct (time_lt _ _); [by apply frame_keeps|].
  destruct (_ || _); [by apply frame_keeps|].
  apply bind_keeps_sound; [by apply frame_keeps|]. intros _.
  apply bind_keeps_sound; [apply _command_action_take_sound|]. intros _.
  apply bind_keeps_sound; [by apply frame_keeps|]. intros t'.
  by apply frame_keeps.
Qed.

Lemma _remove_collected_image_sound (image : ref) b :
  keeps (app_sound b) (_remove_collected_image (time := time) image).
Proof.
  intros self [[Hnodup Hbound] Hpoll].
  unfold _remove_collected_image, mbind, M_bind, get, modify, raise,
    Deque.remove. simpl.
  destruct (Deque.remove_first image (Deque.items (_images self)))
    as [l'|] eqn:Hrem; simpl; [|done].
  apply remove_first_sublist in Hrem.
  split; [|done]. split; simpl.
  - by eapply sublist_NoDup.
  - apply Forall_forall. intros r Hin.
    eapply Forall_forall in Hbound; [exact Hbound|].
    by eapply elem_of_sublist.
Qed.

Lemma _reset_images_sound (images : list ref) self b :
  images `sublist_of` Deque.items (_images self) →
  app_sound b self → app_sound b (_reset_images images self).
Proof.
  intros Hsub [[Hnodup Hbound] Hpoll].
  assert (Deque.items (Deque.new images (_deque_collect_limit self))
            `sublist_of` Deque.items (_images self)) as Hsub'.
  { destruct (new_items images (_deque_collect_limit self)) as [-> _].
    etrans; [apply sublist_drop|done]. }
  split; [|done]. split; simpl.
  - by eapply sublist_NoDup.
  - apply Forall_forall. intros r Hin.
    eapply Forall_forall in Hbound; [exact Hbound|].
    by eapply elem_of_sublist.
Qed.

Lemma rotate_sound (n : Z) self b :
  app_sound b self →
  app_sound b (set_images self (Deque.rotate (_images self) n)).
Proof.
  intros [[Hnodup Hbound] Hpoll]. split; [|done].
  split; cbn [_images set_images heap]; by rewrite rotate_perm.
Qed.

Lemma toggle_pinnation_sound (image : ref) self b :
  app_sound b self → app_sound b (toggle_pinnation image self).
Proof.
  intros [[Hnodup Hbound] Hpoll]. unfold toggle_pinnation.
  case_decide; [|done]. split; [|done]. split; simpl; [done|].
  by rewrite length_alter.
Qed.

Lemma registering_callbacks_sound b :
  Forall (λ cb : XInput.callback (App time),
            ∀ s self, app_sound b self → app_sound b (cb.2 s self).2)
         (registering_callbacks time_sub time_lt).
Proof.
  assert (∀ states self,
            app_sound b self →
            app_sound b
              (bound (_xinput_ltrt_command_action_take time_sub time_lt)
                 states self).2) as Hbound.
  { intros states self Hself. unfold bound.
    pose proof (_xinput_ltrt_command_action_take_sound states b self Hself).
    by destruct (_xinput_ltrt_command_action_take _ _ states self) as [[|] ?]. }
  constructor; [exact Hbound|]. constructor; [exact Hbound|]. constructor.
Qed.

Lemma Event_eq_concrete (a e : XInput.Event) :
  concrete a → concrete e → XInput.Event_eq a e = true → a = e.
Proof.
  destruct a as [ta ka], e as [te ke]. intros [Hta Hka] [Hte Hke].
  simpl in *. by destruct ta, te, ka, ke.
Qed.

Lemma translate_concrete (previous current : XInput.MappedStates) :
  Forall concrete (translate previous current).
Proof.
  destruct (decide (XInput.PacketNumber previous
                    = XInput.PacketNumber current)) as [Heq|Hne].
  - rewrite translate_stale by done. constructor.
  - rewrite translate_as_specified by done.
    unfold axis_events_as_specified.
    repeat case_decide; repeat constructor; discriminate.
Qed.

(** One [update] of a controller with the callbacks of [App.__init__] and
    a queue without wildcards. *)
Lemma update_sound (x : XInput.XInput (App time))
    (answer : Z * XInput.XINPUT_STATE) self :
  XInput.__registered_callbacks x = registering_callbacks time_sub time_lt →
  Forall concrete (XInput.__event_queue x) →
  XInput.__registered_callbacks (XInput.update x answer self).1.1.2
  = registering_callbacks time_sub time_lt
  ∧ Forall concrete (XInput.__event_queue (XInput.update x answer self).1.1.2)
  ∧ Forall trigger_press (XInput.update x answer self).2.
Proof.
  intros Hcbs Hqueue. unfold XInput.update, XInput.__handle_events.
  set (x1 := match XInput.poll answer with
             | Some new_states => XInput.__update_states x new_states
             | None => x
             end).
  assert (XInput.__registered_callbacks x1
          = registering_callbacks time_sub time_lt
          ∧ Forall concrete (XInput.__event_queue x1)) as [Hcbs1 Hqueue1].
  { unfold x1. destruct (XInput.poll answer) as [s|]; [|done].
    rewrite update_states_callbacks, update_states_queue.
    split; [done|]. apply Forall_app. split; [done|].
    apply translate_concrete. }
  destruct (drain_shape (XInput.__registered_callbacks x1)
              (XInput.__prev_states x1) (XInput.__event_queue x1) self)
    as (Hsuffix & Hcalls & _).
  destruct (XInput.drain _ _ _ self) as [[[o q] self'] calls]. simpl in *.
  split; [done|]. split.
  - destruct Hsuffix as [done Hq]. rewrite Hq in Hqueue1.
    by apply Forall_app in Hqueue1 as [_ ?].
  - apply Forall_forall. intros e He.
    destruct (Hcalls e He) as (Hin & cb & Hcb & Hmatch).
    eapply Forall_forall in Hqueue1; [|exact Hin].
    rewrite Hcbs1 in Hcb. unfold registering_callbacks in Hcb.
    apply elem_of_cons in Hcb as [->|Hcb];
      [|apply elem_of_cons in Hcb as [->|Hcb];
        [|by apply elem_of_nil in Hcb]];
      simpl in Hmatch; apply Event_eq_concrete in Hmatch; try done;
      try (split; discriminate).
    + left. done.
    + right. done.
Qed.

Lemma __poll_for_xinput_sound (answer : Z * XInput.XINPUT_STATE) p :
  history_wellformed (app p) →
  XInput.__registered_callbacks (__xinput p)
  = registering_callbacks time_sub time_lt →
  Forall concrete (XInput.__event_queue (__xinput p)) →
  program_sound time_sub time_lt (__poll_for_xinput answer p).1.2
  ∧ Forall trigger_press (__poll_for_xinput answer p).2.
Proof.
  intros Hwf Hcbs Hqueue. unfold __poll_for_xinput.
  destruct (_xinput_poll (app p)) eqn:Hpoll; simpl.
  - destruct (update_sound (__xinput p) answer (app p) Hcbs Hqueue)
      as (Hcbs' & Hqueue' & Hcalls).
    destruct (update_keeps (app_sound true) (__xinput p) answer (app p))
      as [[Hwf' Hpoll'] _].
    { rewrite Hcbs. apply registering_callbacks_sound. }
    { by split. }
    destruct (XInput.update (__xinput p) answer (app p))
      as [[[o x] self] calls]. simpl in *.
    destruct o; (split; [|done]);
      (split; [exact Hwf'|]; split; [done|]; split; [done|]);
      simpl; by intros _.
  - split; [|constructor].
    split; [exact Hwf|]. split; [done|]. split; [done|]. done.
Qed.

Lemma on_app_M_sound (m : M time ()) p :
  (∀ b, keeps (app_sound b) m) →
  program_sound time_sub time_lt p →
  program_sound time_sub time_lt (on_app_M m p).1.2.
Proof.
  intros Hm (Hwf & Hcbs & Hqueue & Htimer). unfold on_app_M.
  destruct (Hm (_xinput_poll (app p)) (app p)) as [Hwf' Hpoll']; [by split|].
  destruct (m (app p)) as [r self]. simpl in *.
  split; [done|]. split; [done|]. split; [done|]. simpl.
  intros Hpending. rewrite Hpoll'. auto.
Qed.

Lemma on_app_M_calls (m : M time ()) p : (on_app_M m p).2 = [].
Proof. unfold on_app_M. by destruct (m (app p)). Qed.

Lemma on_app_sound (f : App time → App time) p :
  (∀ b self, app_sound b self → app_sound b (f self)) →
  program_sound time_sub time_lt p →
  program_sound time_sub time_lt (on_app f p).1.2.
Proof.
  intros Hf (Hwf & Hcbs & Hqueue & Htimer). unfold on_app. simpl.
  destruct (Hf (_xinput_poll (app p)) (app p)) as [Hwf' Hpoll']; [by split|].
  split; [done|]. split; [done|]. split; [done|]. simpl.
  intros Hpending. rewrite Hpoll'. auto.
Qed.

Lemma happen_sound (h : happening) p :
  program_sound time_sub time_lt p →
  program_sound time_sub time_lt (happen h p).1.2
  ∧ Forall trigger_press (happen h p).2.
Proof.
  intros Hp. pose proof Hp as (Hwf & Hcbs & Hqueue & Htimer).
  destruct h; cbn [happen].
  - split; [|constructor]. apply on_app_sound; [|done].
    intros b self. apply rotate_sound.
  - split; [|constructor]. apply on_app_sound; [|done].
    intros b self. apply rotate_sound.
  - split; [|constructor]. apply on_app_sound; [|done].
    intros b self. apply rotate_sound.
  - split; [|constructor]. apply on_app_sound; [|done].
    intros b self. apply _reset_images_sound, sublist_filter.
  - split; [|rewrite on_app_M_calls; constructor].
    apply on_app_M_sound; [|done]. intros b. apply _command_action_take_sound.
  - split; [|rewrite on_app_M_calls; constructor].
    apply on_app_M_sound; [|done]. intros b. apply add_images_sound.
  - split; [|constructor]. apply on_app_sound; [|done].
    intros b self Hself.
    unfold _command_option_set_deque_limit.
    apply _reset_images_sound; [done|].
    destruct Hself as [[? ?] ?]. by repeat split.
  - by apply __poll_for_xinput_sound.
  - split; [|rewrite on_app_M_calls; constructor].
    apply on_app_M_sound; [|done].
    intros b. apply _remove_collected_image_sound.
  - split; [|constructor]. apply on_app_sound; [|done].
    intros b self. apply toggle_pinnation_sound.
  - destruct (__xinput_polling_id p); [|by split; [|constructor]].
    by apply __poll_for_xinput_sound.
Qed.

Lemma run_sound (hs : list happening) p :
  program_sound time_sub time_lt p →
  program_sound time_sub time_lt (run hs p).1
  ∧ Forall trigger_press (run hs p).2.
Proof.
  revert p. induction hs as [|h hs IH]; intros p Hp; simpl.
  { split; [done|constructor]. }
  destruct (happen_sound h p Hp) as [Hp' Hcalls].
  destruct (happen h p) as [[o p'] calls]. simpl in *.
  destruct (IH p' Hp') as [Hp'' Hcalls'].
  destruct (run hs p') as [p'' calls']. simpl in *.
  split; [done|]. by apply Forall_app.
Qed.

Lemma App_init_sound (DELAY : time) (world : nat → Answer time) :
  program_sound time_sub time_lt (App_init time_sub time_lt DELAY world).
Proof.
  split; [|split; [|split]]; simpl; try done.
  split; simpl; constructor.
Qed.

(** X21: In every state the program reaches, the history holds no image twice
    and every reference in it is to a composite that was created. *)
Theorem history_wellformed_always (DELAY : time) (world : nat → Answer time)
    (hs : list happening) :
  let self := app (run hs (App_init time_sub time_lt DELAY world)).1 in
  NoDup (Deque.items (_images self))
  ∧ ∀ image : ref,
      image ∈ Deque.items (_images self) → is_Some (heap self !! image).
Proof.
  destruct (run_sound hs _ (App_init_sound DELAY world))
    as [((Hnodup & Hbound) & _) _].
  split; [done|]. intros image Hin.
  apply lookup_lt_is_Some.
  by eapply Forall_forall in Hbound.
Qed.

(** X22: Whatever happens to the program, the take handler is only ever handed
    the press of the left or of the right trigger: never a release, never
    a wildcard; and the queue never holds a wildcard event. *)
Theorem handlers_see_presses_only (DELAY : time) (world : nat → Answer time)
    (hs : list happening) :
  let result := run hs (App_init time_sub time_lt DELAY world) in
  Forall trigger_press result.2
  ∧ Forall concrete (XInput.__event_queue (__xinput result.1)).
Proof.
  destruct (run_sound hs _ (App_init_sound DELAY world))
    as [(_ & _ & Hqueue & _) Hcalls].
  by split.
Qed.

(** X23: In every state the program reaches with polling switched off, no
    timer is pending: once "LT/RT take?" is off the controller is not
    polled again until it is switched on. *)
Theorem no_timer_when_polling_off (DELAY : time) (world : nat → Answer time)
    (hs : list happening) :
  let p := (run hs (App_init time_sub time_lt DELAY world)).1 in
  _xinput_poll (app p) = false →
  __xinput_polling_id p = false
  ∧ ∀ answer, happen (TimerFires answer) p = (Returned, p, []).
Proof.
  destruct (run_sound hs _ (App_init_sound DELAY world))
    as [(_ & _ & _ & Htimer) _].
  intros p Hoff. subst p.
  destruct (__xinput_polling_id _) eqn:Hpending.
  - rewrite Htimer in Hoff by done. done.
  - split; [done|]. intros answer. simpl. by rewrite Hpending.
Qed.

End SoundFacts.

(** X24: The column count starts at [Constants.COLUMN] and no answer of the
    dialog makes it 0, so [_refresh_gui] never divides by zero; it lays
    the images out row by row: the cell of an image gives its index back,
    the column is below the column count, and no two images share a
    cell. *)
Theorem grid_cells_distinct (answers : list (option nat)) :
  let magic :=
    foldl (λ m answer, _command_option_set_magic_number answer m)
          COLUMN answers in
  (1 ≤ magic)%nat
  ∧ (∀ index : nat,
       ∃ column row : nat,
         grid_cell magic index = Some (column, row)
         ∧ (column < magic)%nat
         ∧ index = (row * magic + column)%nat)
  ∧ (∀ i j : nat, i ≠ j → grid_cell magic i ≠ grid_cell magic j).
Proof.
  intros magic.
  assert (1 ≤ magic)%nat as Hpos.
  { subst magic. generalize COLUMN (eq_refl : (1 <=? COLUMN)%nat = true).
    induction answers as [|answer answers IH]; intros m Hm; simpl.
    - by apply Nat.leb_le.
    - apply IH. destruct answer as [[|n]|]; done. }
  split; [done|].
  destruct magic as [|m]; [lia|].
  split.
  - intros index. exists (index mod S m)%nat, (index / S m)%nat.
    split; [done|]. split; [apply Nat.mod_upper_bound; lia|].
    rewrite Nat.mul_comm. apply Nat.div_mod_eq.
  - intros i j Hne Heq. apply Hne.
    assert ((i mod S m = j mod S m)%nat ∧ (i / S m = j / S m)%nat)
      as [Hmod Hdiv].
    { unfold grid_cell in Heq. by injection Heq. }
    rewrite (Nat.div_mod_eq i (S m)), (Nat.div_mod_eq j (S m)).
    by rewrite Hmod, Hdiv.
Qed.

(** * The further statements at concrete inputs *)

(** Two presses of different triggers do not match. *)
Lemma event_matching_concrete_witness :
  XInput.Event_eq (press_of XInput.KeyLeftTrigger)
    (press_of XInput.KeyRightTrigger) = true
  ↔ press_of XInput.KeyLeftTrigger = press_of XInput.KeyRightTrigger.
Proof.
  apply (proj1 (proj2 event_matching_concrete)); split; discriminate.
Defined.

(** The press queued when the left trigger goes from 0 to 255. *)
Lemma translate_sound_witness :
  XInput.LeftTrigger (snapshot 1 255 0) = 255
  ∧ XInput.LeftTrigger (snapshot 0 0 255) ≠ 255.
Proof.
  destruct (proj2 (translate_sound (snapshot 0 0 255) (snapshot 1 255 0))
              (press_of XInput.KeyLeftTrigger) (list_elem_of_here _ _))
    as (_ & _ & [(_ & H1 & H2)|[(H & _)|[(H & _)|(H & _)]]]);
    [by split|discriminate H..].
Defined.


(** The right press handed out was queued and matches the wildcard
    pattern. *)
Lemma dispatch_calls_justified_witness :
  press_of XInput.KeyRightTrigger ∈ XInput.__event_queue listening
  ∧ ∃ cb : XInput.callback nat,
      cb ∈ XInput.__registered_callbacks listening
      ∧ XInput.Event_eq cb.1 (press_of XInput.KeyRightTrigger) = true.
Proof.
  pose proof (dispatch_calls_justified listening 0%nat) as H.
  cbv [XInput.__handle_events listening XInput.drain XInput.run_callbacks
       XInput.__registered_callbacks XInput.__event_queue
       XInput.__prev_states counting] in H.
  simpl in H. destruct H as [_ H].
  apply H. do 2 apply list_elem_of_further. apply list_elem_of_here.
Defined.

(** The second callback raises on the first event: the two events behind
    it stay queued. *)
Lemma dispatch_raise_keeps_rest_witness :
  ∃ done e calls',
    XInput.__event_queue breaking
    = done ++ e :: [release_of XInput.KeyLeftTrigger;
                    press_of XInput.KeyRightTrigger]
    ∧ [press_of XInput.KeyLeftTrigger; press_of XInput.KeyLeftTrigger]
      = calls' ++ [e].
Proof.
  pose proof (dispatch_raise_keeps_rest breaking 0%nat) as H.
  cbv [XInput.__handle_events breaking XInput.drain XInput.run_callbacks
       XInput.__registered_callbacks XInput.__event_queue
       XInput.__prev_states counting failing] in H.
  simpl in H. exact (H eq_refl).
Defined.

(** The driver answers with an error code (no controller): nothing
    happens. *)
Lemma update_without_news_witness :
  XInput.update (XInput.init [(press_of XInput.KeyLeftTrigger, counting)])
    (1167, (reading 5 255 255).2) 0%nat
  = (Returned, XInput.init [(press_of XInput.KeyLeftTrigger, counting)],
     0%nat, []).
Proof.
  apply (update_without_news
           (XInput.init [(press_of XInput.KeyLeftTrigger, counting)])
           (1167, (reading 5 255 255).2) 0%nat).
  - reflexivity.
  - left. simpl. lia.
Defined.

(** A full deque of three with nothing pinned: the oldest item goes. *)
Lemma guarded_append_nothing_pinned_witness :
  Deque.deque_append_with_predicate
    {| Deque.items := [1%nat; 2%nat; 3%nat]; Deque.maxlen := 3 |} 4%nat
    (λ _, false)
  = Some {| Deque.items := [2%nat; 3%nat; 4%nat]; Deque.maxlen := 3 |}.
Proof.
  apply (guarded_append_nothing_pinned
           {| Deque.items := [1%nat; 2%nat; 3%nat]; Deque.maxlen := 3 |}
           4%nat (λ _, false)).
  - unfold Deque.len. simpl. lia.
  - repeat constructor.
Defined.

(** Three new items into a deque of two with bound three and nothing
    pinned: the last three remain. *)
Lemma guarded_extend_nothing_pinned_witness :
  Deque.deque_extend_with_predicate
    {| Deque.items := [1%nat; 2%nat]; Deque.maxlen := 3 |}
    [3%nat; 4%nat; 5%nat] (λ _, false)
  = Some {| Deque.items := [3%nat; 4%nat; 5%nat]; Deque.maxlen := 3 |}.
Proof.
  apply (guarded_extend_nothing_pinned
           {| Deque.items := [1%nat; 2%nat]; Deque.maxlen := 3 |}
           [3%nat; 4%nat; 5%nat] (λ _, false)).
  - unfold Deque.len. simpl. lia.
  - reflexivity.
Defined.

(** Two new items where there is room for two. *)
Lemma guarded_extend_room_witness :
  Deque.deque_extend_with_predicate
    {| Deque.items := [2%nat]; Deque.maxlen := 3 |} [4%nat; 6%nat] Nat.even
  = Some {| Deque.items := [2%nat; 4%nat; 6%nat]; Deque.maxlen := 3 |}.
Proof.
  apply (guarded_extend_room
           {| Deque.items := [2%nat]; Deque.maxlen := 3 |}
           [4%nat; 6%nat] Nat.even).
  unfold Deque.len. simpl. lia.
Defined.

(** Even numbers pinned, a full deque [2; 3; 4] and two odd newcomers. *)
Lemma guarded_extend_keeps_pinned_witness :
  ∃ dq',
    Deque.deque_extend_with_predicate
      {| Deque.items := [2%nat; 3%nat; 4%nat]; Deque.maxlen := 3 |}
      [5%nat; 7%nat] Nat.even = Some dq'
    ∧ Deque.maxlen dq' = 3%nat
    ∧ (Deque.len dq' ≤ 3)%nat
    ∧ Deque.items dq' `sublist_of` [2%nat; 3%nat; 4%nat] ++ [5%nat; 7%nat]
    ∧ filter (λ y, Nat.even y = true) [2%nat; 3%nat; 4%nat]
        `prefix_of` filter (λ y, Nat.even y = true) (Deque.items dq').
Proof.
  apply (guarded_extend_keeps_pinned
           {| Deque.items := [2%nat; 3%nat; 4%nat]; Deque.maxlen := 3 |}
           [5%nat; 7%nat] Nat.even).
  unfold Deque.len. simpl. lia.
Defined.

(** One more image after two screenshots. *)
Lemma add_image_spec_witness :
  (add_image "one more" (app first_pinned)).1 = Some ().
Proof.
  assert (Deque.len (_images (app first_pinned))
          ≤ Deque.maxlen (_images (app first_pinned)))%nat as Hle
    by (apply Nat.leb_le; vm_compute; reflexivity).
  exact (proj1 (add_image_spec "one more" (app first_pinned) Hle)).
Defined.

(** Remove all with the first of two screenshots pinned. *)
Lemma remove_all_keeps_pinned_witness :
  Deque.items (_images (_command_view_remove_all (app first_pinned)))
  = filter (λ image, pinnation_get (heap (app first_pinned)) image = true)
           (Deque.items (_images (app first_pinned))).
Proof.
  assert (history_within_limit (app first_pinned)) as Hlimit.
  { split; [apply Nat.leb_le; vm_compute; reflexivity|reflexivity]. }
  exact (proj1 (remove_all_keeps_pinned (app first_pinned) Hlimit)).
Defined.

(** Removing the second of two screenshots, and an image that is not
    there. *)
Lemma remove_collected_image_spec_witness :
  (_remove_collected_image 1%nat (app first_pinned)).1 = Some ()
  ∧ (_remove_collected_image 7%nat (app first_pinned)).1 = None.
Proof.
  split.
  - apply (proj2 (remove_collected_image_spec 1%nat (app first_pinned))).
    apply list_elem_of_further, list_elem_of_here.
  - apply (proj1 (remove_collected_image_spec 7%nat (app first_pinned))).
    change (Deque.items (_images (app first_pinned))) with [0%nat; 1%nat].
    intros Hin.
    apply elem_of_cons in Hin as [Hin|Hin]; [discriminate Hin|].
    apply elem_of_cons in Hin as [Hin|Hin]; [discriminate Hin|].
    by apply elem_of_nil in Hin.
Defined.

(** Rotating three screenshots brings the last one to the front. *)
Lemma rotate_rrotate_inverse_witness :
  Deque.items (_images (_command_view_rotate (app three_shots)))
  = [2%nat; 0%nat; 1%nat].
Proof.
  apply (proj1 (rotate_rrotate_inverse (app three_shots))
           [0%nat; 1%nat] 2%nat).
  reflexivity.
Defined.

(** Both triggers pulled one second after the start. *)
Lemma take_captures_witness :
  (_xinput_ltrt_command_action_take Z.sub Z.ltb (snapshot 1 255 255)
     (app (start quiet))).1 = Some ().
Proof.
  exact (proj1 (take_captures Z.sub Z.ltb (snapshot 1 255 255)
                  (app (start quiet)) eq_refl eq_refl eq_refl eq_refl
                  eq_refl (λ _, eq_refl))).
Defined.

(** The screen grab fails: the history stays empty. *)
Lemma take_raise_changes_nothing_witness :
  _images (_xinput_ltrt_command_action_take Z.sub Z.ltb (snapshot 1 255 255)
             (app (start grab_fails_once))).2
  = _images (app (start grab_fails_once)).
Proof.
  exact (proj1 (take_raise_changes_nothing Z.sub Z.ltb (snapshot 1 255 255)
                  (app (start grab_fails_once)) eq_refl)).
Defined.

(** The second of two screenshots is on the heap. *)
Lemma history_wellformed_always_witness :
  is_Some (heap (app (run [ActionTake; ActionTake] (start quiet)).1)
             !! 1%nat).
Proof.
  apply (proj2 (history_wellformed_always Z.sub Z.ltb 150 quiet
                  [ActionTake; ActionTake]) 1%nat).
  apply list_elem_of_further, list_elem_of_here.
Defined.

(** Polling switched on and off again: no timer is left. *)
Lemma no_timer_when_polling_off_witness :
  __xinput_polling_id
    (run [OptionLtRtTake (reading 1 0 0); OptionLtRtTake (reading 1 0 0)]
       (start quiet)).1 = false.
Proof.
  exact (proj1 (no_timer_when_polling_off Z.sub Z.ltb 150 quiet
                  [OptionLtRtTake (reading 1 0 0);
                   OptionLtRtTake (reading 1 0 0)] eq_refl)).
Defined.

(** Three columns: the images at 4 and 7 are in different cells. *)
Lemma grid_cells_distinct_witness :
  grid_cell 3 4 ≠ grid_cell 3 7.
Proof.
  apply (proj2 (proj2 (grid_cells_distinct [Some 3%nat])) 4%nat 7%nat).
  lia.
Defined.
